(** * Oxidized Git front end: activity counter, text fitting, command
      dispatch and branch-tree reconciliation

    A shallow embedding of the class [Main] of the user interface
    (the current revision with the branch trees, and its earlier revision
    [ui/main.js], whose [addProcessCount], [removeProcessCount] and [error]
    listener are the same text).

    Conventions of the embedding.
    - [this.processCount] is a JavaScript number that only ever receives
      [++], [--] and [= 0]; it is an integer, modelled in [Z].
    - The page is modelled by what the methods read and write: the
      visibility of [#mainSpinner], the text of the [.file-path-txt]
      labels, the three branch lists [#localBranches],
      [#remoteBranches] and [#tags], the rows of the lists of changed
      files with the two diff tables, the context menu, and the options
      of [#remoteSelect].
    - Calls that leave the page ([show]/[hide] on the spinner, [emit],
      [alert]) and the writes of the click handlers to form fields and
      dialogs are appended, in execution order, to a log of effects.
    - JavaScript strings are modelled by [string]; a character stands for
      one code unit. *)

From Stdlib Require Import ZArith List String Ascii Bool Lia DecimalString.
From Equations Require Import Equations.
Import ListNotations.

Set Warnings "-register-all".

Local Open Scope Z_scope.
Local Open Scope list_scope.

(* ===================================================================== *)
(** * Part I. Definitions                                                 *)
(* ===================================================================== *)

(** ** Payloads exchanged with the backend *)

(** One entry of [files_changed_info_list]: the code reads [path] and
    [status]. *)
Record FileInfo : Type := mkFileInfo {
  path : string;
  status : Z
}.

(** The [branch_info] object carried by a node of a branch tree. *)
Record BranchInfo : Type := mkBranchInfo {
  is_head : bool;
  behind : Z;
  ahead : Z;
  branch_type : string;
  full_branch_name : string;
  branch_shorthand : string
}.

(** Outbound commands: the first argument of every [emit(...)] call of the
    class, with its payload. *)
Inductive Command : Type :=
| CmdSavePreferences (limit_commits : bool) (commit_count : Z)
| CmdSaveCredentials (username password : string)
| CmdCommit (summaryText messageText : string)
| CmdCommitPush (summaryText messageText : string)
| CmdFetch
| CmdPull
| CmdPush (selectedRemote : string) (isForcePush : bool)
| CmdBranch (branch_name : string) (checkout_on_create : bool)
| CmdFileDiff (file_path change_type sha : string)
| CmdStage (file : FileInfo)
| CmdUnstage (file : FileInfo)
| CmdCheckoutRemote (full_name shorthand : string)
| CmdCheckout (full_name : string)
| CmdDeleteLocalBranch (shorthand : string)
| CmdDeleteRemoteBranch (shorthand : string)
| CmdDeleteTag (shorthand : string).

(** Effects that leave the object, in the order they are executed. *)
Inductive Effect : Type :=
| SpinnerShow                 (* $('#mainSpinner').show() *)
| SpinnerHide                 (* $('#mainSpinner').hide() *)
| Emit (c : Command)          (* emit(name, payload)      *)
| Alert (msg : string)        (* alert(msg)               *)
| FieldSet (field value : string)   (* $('#field').val(value)     *)
| ModalHide (modal : string).       (* $('#modal').modal('hide')  *)

(** ** The activity counter *)

(** The fields of [Main] that the counter touches, the spinner it drives
    and the log of effects. *)
Record Main : Type := mkMain {
  processCount : Z;
  spinnerVisible : bool;
  effects : list Effect
}.

(** State once [run()] has executed [$('#mainSpinner').hide()]: the
    constructor set [processCount = 0]; the log starts here. *)
Definition startup : Main :=
  {| processCount := 0; spinnerVisible := false; effects := [] |}.

(** [addProcessCount()]: [this.processCount++; $('#mainSpinner').show();] *)
Definition addProcessCount (st : Main) : Main :=
  {| processCount := processCount st + 1;
     spinnerVisible := true;
     effects := effects st ++ [SpinnerShow] |}.

(** [removeProcessCount()]:
    [this.processCount--;
     if (this.processCount <= 0) {
         $('#mainSpinner').hide();
         if (this.processCount < 0) { this.processCount = 0; }
     }] *)
Definition removeProcessCount (st : Main) : Main :=
  let decremented := processCount st - 1 in
  if decremented <=? 0 then
    {| processCount := if decremented <? 0 then 0 else decremented;
       spinnerVisible := false;
       effects := effects st ++ [SpinnerHide] |}
  else
    {| processCount := decremented;
       spinnerVisible := spinnerVisible st;
       effects := effects st |}.

(** A call of the counter: [start()] is [addProcessCount], [end()] is
    [removeProcessCount]. *)
Inductive CounterOp : Type := OpStart | OpEnd.

Definition apply_op (st : Main) (op : CounterOp) : Main :=
  match op with
  | OpStart => addProcessCount st
  | OpEnd => removeProcessCount st
  end.

(** The calls of an interleaving, executed from left to right. *)
Definition run_ops (ops : list CounterOp) (st : Main) : Main :=
  fold_left apply_op ops st.

Definition is_start (op : CounterOp) : bool :=
  match op with OpStart => true | OpEnd => false end.

Definition is_end (op : CounterOp) : bool :=
  match op with OpStart => false | OpEnd => true end.

(** N and M of an interleaving. *)
Definition starts (ops : list CounterOp) : Z :=
  Z.of_nat (List.length (filter is_start ops)).

Definition ends (ops : list CounterOp) : Z :=
  Z.of_nat (List.length (filter is_end ops)).

Definition is_hide (e : Effect) : bool :=
  match e with SpinnerHide => true | _ => false end.

(** Number of [hide()] calls logged so far. *)
Definition hide_calls (st : Main) : Z :=
  Z.of_nat (List.length (filter is_hide (effects st))).

(** Number of [end()] calls of [ops], run from [st], that find the counter
    at 0 (or below) and are absorbed by the clamp. *)
Fixpoint absorbed_ends (ops : list CounterOp) (st : Main) : Z :=
  match ops with
  | [] => 0
  | op :: rest =>
      (if is_end op && (processCount st <=? 0) then 1 else 0)
      + absorbed_ends rest (apply_op st op)
  end.

(** Number of calls of [ops], run from [st], that take the counter from a
    positive value to 0. *)
Fixpoint idle_transitions (ops : list CounterOp) (st : Main) : Z :=
  match ops with
  | [] => 0
  | op :: rest =>
      (if (0 <? processCount st) && (processCount (apply_op st op) =? 0)
       then 1 else 0)
      + idle_transitions rest (apply_op st op)
  end.

(** Number of calls of [ops], run from [st], at which the spinner goes
    from shown to hidden. *)
Fixpoint spinner_hidings (ops : list CounterOp) (st : Main) : Z :=
  match ops with
  | [] => 0
  | op :: rest =>
      (if spinnerVisible st && negb (spinnerVisible (apply_op st op))
       then 1 else 0)
      + spinner_hidings rest (apply_op st op)
  end.

(** States in which the spinner is shown exactly when work is pending. *)
Definition coherent (st : Main) : Prop :=
  0 <= processCount st /\ spinnerVisible st = (0 <? processCount st).

(** ** The coordinator: user actions and backend events *)

(** The user gestures whose handler calls [emit]: one constructor per
    [emit] call site, with the values the handler reads from the page. *)
Inductive UserAction : Type :=
| ClickSavePreferencesBtn (limitCommits : bool) (commitCount : Z)
| ClickSaveCredentialsBtn (username password : string)
| ClickCommitBtn (summary message : string)
| ClickCommitPushBtn (summary message : string)
| ClickFetchBtn
| ClickPullBtn
| ClickPushBtn (remote : string) (force : bool)
| ClickBranchBtn (name : string) (checkoutOnCreate : bool)
| ClickFileRow (file : FileInfo) (changeType sha : string)
| ClickStageButton (unstagedFile : FileInfo)
| ClickUnstageButton (stagedFile : FileInfo)
| DblClickBranchItem (info : BranchInfo)
| ClickDeleteBtn (branchShorthand branchType : string).

Definition emit (c : Command) (st : Main) : Main :=
  {| processCount := processCount st;
     spinnerVisible := spinnerVisible st;
     effects := effects st ++ [Emit c] |}.

Definition alert (msg : string) (st : Main) : Main :=
  {| processCount := processCount st;
     spinnerVisible := spinnerVisible st;
     effects := effects st ++ [Alert msg] |}.

(** [$('#field').val(value)] and [$('#modal').modal('hide')]. *)
Definition set_val (field value : string) (st : Main) : Main :=
  {| processCount := processCount st;
     spinnerVisible := spinnerVisible st;
     effects := effects st ++ [FieldSet field value] |}.

Definition modal_hide (modal : string) (st : Main) : Main :=
  {| processCount := processCount st;
     spinnerVisible := spinnerVisible st;
     effects := effects st ++ [ModalHide modal] |}.

(** The writes of a handler to form fields and dialogs. *)
Definition form_write (e : Effect) : bool :=
  match e with
  | FieldSet _ _ | ModalHide _ => true
  | _ => false
  end.

(** The handler run for a gesture, one synchronous step, with what it
    does after the emit: the fields it has sent are cleared and its
    dialog is hidden.  What the handler of a row does to the rows before
    its emit is part of the page of changes, further down. *)
Definition handle (a : UserAction) (st : Main) : Main :=
  match a with
  | ClickSavePreferencesBtn l c =>
      modal_hide "preferencesModal"
        (emit (CmdSavePreferences l c) (addProcessCount st))
  | ClickSaveCredentialsBtn u p =>
      modal_hide "credentialsModal"
        (set_val "passwordTxt" ""
           (set_val "usernameTxt" "" (emit (CmdSaveCredentials u p) st)))
  | ClickCommitBtn s m =>
      set_val "messageTxt" ""
        (set_val "summaryTxt" "" (emit (CmdCommit s m) (addProcessCount st)))
  | ClickCommitPushBtn s m =>
      set_val "messageTxt" ""
        (set_val "summaryTxt" ""
           (emit (CmdCommitPush s m) (addProcessCount st)))
  | ClickFetchBtn =>
      emit CmdFetch (addProcessCount st)
  | ClickPullBtn =>
      emit CmdPull (addProcessCount st)
  | ClickPushBtn r f =>
      modal_hide "pushModal" (emit (CmdPush r f) (addProcessCount st))
  | ClickBranchBtn n c =>
      modal_hide "branchModal"
        (set_val "branchTxt" "" (emit (CmdBranch n c) (addProcessCount st)))
  | ClickFileRow f changeType sha =>
      emit (CmdFileDiff (path f) changeType sha) st
  | ClickStageButton f =>
      emit (CmdStage f) st
  | ClickUnstageButton f =>
      emit (CmdUnstage f) st
  | DblClickBranchItem info =>
      if (branch_type info =? "remote")%string then
        emit (CmdCheckoutRemote (full_branch_name info) (branch_shorthand info))
             (addProcessCount st)
      else if (branch_type info =? "local")%string then
        emit (CmdCheckout (full_branch_name info)) (addProcessCount st)
      else st
  | ClickDeleteBtn shorthand branchType =>
      if (branchType =? "local")%string then
        emit (CmdDeleteLocalBranch shorthand) (addProcessCount st)
      else if (branchType =? "remote")%string then
        emit (CmdDeleteRemoteBranch shorthand) (addProcessCount st)
      else if (branchType =? "tag")%string then
        emit (CmdDeleteTag shorthand) (addProcessCount st)
      else alert "Not implemented, sorry!" st
  end.

(** The commands of the families stage, unstage, commit, push, fetch,
    pull, checkout, branch and delete. *)
Definition user_command (c : Command) : bool :=
  match c with
  | CmdStage _ | CmdUnstage _
  | CmdCommit _ _ | CmdCommitPush _ _
  | CmdPush _ _ | CmdFetch | CmdPull
  | CmdCheckout _ | CmdCheckoutRemote _ _
  | CmdBranch _ _
  | CmdDeleteLocalBranch _ | CmdDeleteRemoteBranch _ | CmdDeleteTag _ => true
  | CmdSavePreferences _ _ | CmdSaveCredentials _ _ | CmdFileDiff _ _ _ => false
  end.

Definition stage_or_unstage (c : Command) : bool :=
  match c with
  | CmdStage _ | CmdUnstage _ => true
  | _ => false
  end.

(** Listeners of the events that reach the counter. *)
Definition listen_start_process (st : Main) : Main := addProcessCount st.

Definition listen_end_process (st : Main) : Main := removeProcessCount st.

(** [listen("error", ev => { self.removeProcessCount(); alert(ev.payload); })] *)
Definition listen_error (payload : string) (st : Main) : Main :=
  alert payload (removeProcessCount st).

(** ** Fitting a file path into its column ([truncateFilePathText]) *)

Local Open Scope string_scope.

(** The marker put in front of a shortened path. *)
Definition ellipsis : string := "...".

(** [s.substring(n)]: [s] without its first [n] characters, the empty
    string when [s] has no more than [n]. *)
Fixpoint substring_from (n : nat) (s : string) : string :=
  match n, s with
  | O, _ => s
  | S _, EmptyString => EmptyString
  | S n', String _ rest => substring_from n' rest
  end.

(** One turn of the loop body assigns ["..." + txt.textContent.substring(4)]. *)
Definition shorten (txt : string) : string := ellipsis ++ substring_from 4 txt.

Lemma shorten_decreases (txt : string) :
  (shorten txt =? ellipsis) = false ->
  (String.length (shorten txt) < String.length txt)%nat.
Proof.
  unfold shorten, ellipsis.
  destruct txt as [|a [|b [|c [|d rest]]]]; cbn; try discriminate.
  intros _. lia.
Qed.

(** The [while] loop of [truncateFilePathText] on one label:
    [while (txt.clientWidth >= shrunkenTxtContainer.clientWidth) {
         txt.textContent = "..." + txt.textContent.substring(4);
         if (txt.textContent === "...") { break; }
     }]
    [measure] gives [txt.clientWidth] for a text content, [w] is the
    client width of the container.  The loop is defined by recursion on
    the length of the text, which every turn that does not break makes
    smaller. *)
Equations shrink_loop (measure : string -> Z) (w : Z) (txt : string) : string
  by wf (String.length txt) lt :=
shrink_loop measure w txt with (w <=? measure txt)%Z := {
  | false => txt
  | true with Logic.inspect (shorten txt =? ellipsis) := {
      | exist _ true _ => shorten txt
      | exist _ false Hcontinue => shrink_loop measure w (shorten txt) } }.
Next Obligation.
  apply shorten_decreases; assumption.
Qed.

(** The body of the [for] loop of [truncateFilePathText] for one label
    whose [data-original-txt] is [originalText]:
    [txt.textContent = txt.getAttribute('data-original-txt');
     if (txt.clientWidth > 0 && shrunkenTxtContainer.clientWidth > 0) {
         if (txt.clientWidth >= shrunkenTxtContainer.clientWidth) {
             txt.textContent = "..." + txt.textContent;
         }
         while ...
     }]
    The result is the text content the label is left with.  The
    container takes its width from the column, not from the text, so its
    client width is the same number at every test of one call. *)
Definition fit (originalText : string) (measure : string -> Z)
                (containerWidth : Z) : string :=
  let txt := originalText in
  if ((0 <? measure txt) && (0 <? containerWidth))%Z then
    let txt := if (containerWidth <=? measure txt)%Z
               then ellipsis ++ txt else txt in
    shrink_loop measure containerWidth txt
  else txt.

(** A [.file-path-txt] element: its [data-original-txt] attribute, its
    text content and the client width of the container two levels up. *)
Record FilePathTxt : Type := mkFilePathTxt {
  data_original_txt : string;
  textContent : string;
  container_clientWidth : Z
}.

(** [truncateFilePathText()]: every label of the page is refitted. *)
Definition truncateFilePathText (measure : string -> Z)
    (filePathText : list FilePathTxt) : list FilePathTxt :=
  map (fun txt =>
         {| data_original_txt := data_original_txt txt;
            textContent := fit (data_original_txt txt) measure
                               (container_clientWidth txt);
            container_clientWidth := container_clientWidth txt |})
      filePathText.

(** A width of 8 pixels per character, for the examples. *)
Definition monospace8 (s : string) : Z := 8 * Z.of_nat (String.length s).

(** ** The branch trees *)

(** A node of [local_branch_info_tree], [remote_branch_info_tree] or
    [tag_branch_info_tree] as the backend sends it: [text], [branch_info]
    and [children].  The code reads [branch_info] on nodes without
    children only. *)
Inductive BranchTree : Type :=
| BNode (text : string) (branch_info : BranchInfo) (children : list BranchTree).

Definition children_of (t : BranchTree) : list BranchTree :=
  match t with BNode _ _ children => children end.

(** The payload [branch_info_list] of [update_all]. *)
Record BranchInfoList : Type := mkBranchInfoList {
  local_branch_info_tree : BranchTree;
  remote_branch_info_tree : BranchTree;
  tag_branch_info_tree : BranchTree
}.

(** The list items [buildBranchResultHTML] creates.
    [LiParent] is
    [<li><span class="parent-tree"><i class="fa-solid fa-caret-down"></i> text</span>
         <ul id="..." class="nested sub-tree-view">...</ul></li>]
    with two flags for the classes that come and go: [rotated-caret] on
    the caret and [active-tree] on the nested list.
    [LiBranch] is the row of a branch or tag: its text, the optional
    behind and ahead counters, and the [branch_info] its handlers use. *)
Inductive Li : Type :=
| LiParent (text : string) (rotated_caret : bool)
           (ul_id : string) (active_tree : bool) (ul_items : list Li)
| LiBranch (childText : string) (behindCount aheadCount : option Z)
           (info : BranchInfo).

(** [buildBranchResultHTML(currentChildren, $ul, parentTxt)], for one
    child: the item appended to [$ul].  The code writes the markup as a
    string and has it parsed; the item is what the parser yields when the
    names hold none of the characters that markup gives a meaning to
    (quotes, angle brackets, ampersand). *)
Fixpoint build_item (parentTxt : string) (child : BranchTree) : Li :=
  match child with
  | BNode text info children =>
      match children with
      | _ :: _ =>
          let newParentTxt := parentTxt ++ "-" ++ text in
          LiParent text false newParentTxt false
                   (map (build_item newParentTxt) children)
      | [] =>
          LiBranch ((if is_head info then "* " else "") ++ text)
                   (if (behind info =? 0)%Z then None else Some (behind info))
                   (if (ahead info =? 0)%Z then None else Some (ahead info))
                   info
      end
  end.

(** The items appended to [$ul], in the order of [forEach]. *)
Definition buildBranchResultHTML (currentChildren : list BranchTree)
    (parentTxt : string) : list Li :=
  map (build_item parentTxt) currentChildren.

(** [togglerClick] on the header of a nested list: both classes are
    toggled. *)
Definition togglerClick (li : Li) : Li :=
  match li with
  | LiParent text caret id active items =>
      LiParent text (negb caret) id (negb active) items
  | LiBranch _ _ _ _ => li
  end.

(** One of the lists [#localBranches], [#remoteBranches], [#tags] of the
    page: whether it carries [active-tree], whether the caret of its header
    carries [rotated-caret], and its items. *)
Record Container : Type := mkContainer {
  ct_active : bool;
  ct_caret : bool;
  ct_items : list Li
}.

(** The part of the document the branch view lives in, in document
    order. *)
Record TreeView : Type := mkTreeView {
  localBranches : Container;
  remoteBranches : Container;
  tags : Container
}.

(** Ids of the nested lists below an item, in document order. *)
Fixpoint rendered_ids_li (li : Li) : list string :=
  match li with
  | LiParent _ _ id _ items => id :: flat_map rendered_ids_li items
  | LiBranch _ _ _ _ => []
  end.

Definition rendered_ids (items : list Li) : list string :=
  flat_map rendered_ids_li items.

(** Ids of the nested lists below an item that carry [active-tree]. *)
Fixpoint expanded_ids_li (li : Li) : list string :=
  match li with
  | LiParent _ _ id active items =>
      ((if active then [id] else []) ++ flat_map expanded_ids_li items)%list
  | LiBranch _ _ _ _ => []
  end.

Definition expanded_ids (items : list Li) : list string :=
  flat_map expanded_ids_li items.

Definition container_active_ids (id : string) (c : Container) : list string :=
  ((if ct_active c then [id] else []) ++ expanded_ids (ct_items c))%list.

(** [$('.active-tree').each(function() { activeTreeIds.push($(this).attr('id')); })]
    The class is toggled by [togglerClick] and added by [updateBranchInfo]
    only, on the lists of the branch view; these are the elements the
    query finds, in document order. *)
Definition activeTreeIds (doc : TreeView) : list string :=
  container_active_ids "localBranches" (localBranches doc)
  ++ container_active_ids "remoteBranches" (remoteBranches doc)
  ++ container_active_ids "tags" (tags doc).

(** Nested lists of the three trees that are expanded, and all of them. *)
Definition expanded_nodes (doc : TreeView) : list string :=
  expanded_ids (ct_items (localBranches doc))
  ++ expanded_ids (ct_items (remoteBranches doc))
  ++ expanded_ids (ct_items (tags doc)).

Definition rendered_nodes (doc : TreeView) : list string :=
  rendered_ids (ct_items (localBranches doc))
  ++ rendered_ids (ct_items (remoteBranches doc))
  ++ rendered_ids (ct_items (tags doc)).

(** *** The selector engine, for the selectors [updateBranchInfo] builds *)

(** [s.split(sep)] for a one-character separator. *)
Fixpoint split_on (sep : ascii) (s : string) : list string :=
  match s with
  | EmptyString => [EmptyString]
  | String c rest =>
      if (c =? sep)%char then EmptyString :: split_on sep rest
      else match split_on sep rest with
           | piece :: pieces => String c piece :: pieces
           | [] => [String c EmptyString]
           end
  end.

(** Characters of the class [[\w-]]. *)
Definition is_ident_char (c : ascii) : bool :=
  let n := nat_of_ascii c in
  ((48 <=? n) && (n <=? 57) || (65 <=? n) && (n <=? 90)
   || (97 <=? n) && (n <=? 122) || (n =? 95) || (n =? 45))%nat.

Fixpoint all_chars (p : ascii -> bool) (s : string) : bool :=
  match s with
  | EmptyString => true
  | String c rest => p c && all_chars p rest
  end.

(** A non-empty word of [[\w-]]. *)
Definition is_identifier (s : string) : bool :=
  negb (s =? "") && all_chars is_ident_char s.

(** One member of a selector group, as far as the model reads it. *)
Inductive SelectorPiece : Type :=
| PieceId (id : string)     (* "#" followed by an identifier          *)
| PieceMalformed            (* nothing, or "#" with nothing after it  *)
| PieceOther.               (* any other selector: outside the model  *)

Definition read_piece (piece : string) : SelectorPiece :=
  match piece with
  | EmptyString => PieceMalformed
  | String c rest =>
      if (c =? "#")%char then
        if rest =? "" then PieceMalformed
        else if all_chars is_ident_char rest then PieceId rest
        else PieceOther
      else PieceOther
  end.

Definition piece_is_other (p : SelectorPiece) : bool :=
  match p with PieceOther => true | _ => false end.

Definition piece_is_malformed (p : SelectorPiece) : bool :=
  match p with PieceMalformed => true | _ => false end.

Fixpoint piece_ids (ps : list SelectorPiece) : list string :=
  match ps with
  | [] => []
  | PieceId id :: rest => id :: piece_ids rest
  | _ :: rest => piece_ids rest
  end.

(** What [$(selector)] does with a selector string.
    - A group of id selectors separated by commas selects every element
      whose id is listed ([querySelectorAll]).
    - A single [#id] takes the shortcut through [document.getElementById],
      which yields the first such element only.
    - A member that is empty or a bare ["#"] makes the engine throw
      [Syntax error, unrecognized expression].
    - Anything else (class, attribute, descendant selectors, characters
      outside [[\w-]]) is left outside the model. *)
Inductive Query : Type :=
| QSyntaxError
| QOutsideModel
| QGetElementById (id : string)
| QSelectAll (ids : list string).

Definition jQuery_query (selector : string) : Query :=
  let pieces := map read_piece (split_on "," selector) in
  if existsb piece_is_other pieces then QOutsideModel
  else if existsb piece_is_malformed pieces then QSyntaxError
  else match piece_ids pieces with
       | [id] => QGetElementById id
       | ids => QSelectAll ids
       end.

Definition id_listed (ids : list string) (id : string) : bool :=
  existsb (String.eqb id) ids.

(** The body of [.each] on the nested lists among the selected elements:
    [$(this).addClass("active-tree")] and [rotated-caret] on the caret of
    the header next to it.  Here every nested list whose id is listed is
    selected. *)
Fixpoint activate_all_li (ids : list string) (li : Li) : Li :=
  match li with
  | LiParent text caret id active items =>
      let items' := map (activate_all_li ids) items in
      if id_listed ids id then LiParent text true id true items'
      else LiParent text caret id active items'
  | LiBranch _ _ _ _ => li
  end.

Definition activate_all_container (ids : list string) (id : string)
    (c : Container) : Container :=
  {| ct_active := ct_active c || id_listed ids id;
     ct_caret := ct_caret c || id_listed ids id;
     ct_items := map (activate_all_li ids) (ct_items c) |}.

Definition activate_all (ids : list string) (doc : TreeView) : TreeView :=
  {| localBranches := activate_all_container ids "localBranches" (localBranches doc);
     remoteBranches := activate_all_container ids "remoteBranches" (remoteBranches doc);
     tags := activate_all_container ids "tags" (tags doc) |}.

(** The same body when only the first element with the id, in document
    order, is selected.  [found] tells that it was met already. *)
Fixpoint activate_first_li (target : string) (found : bool) (li : Li)
  : bool * Li :=
  match li with
  | LiParent text caret id active items =>
      if found then (true, li)
      else if id =? target then (true, LiParent text true id true items)
      else
        let '(found', items') :=
          (fix go (found : bool) (l : list Li) : bool * list Li :=
             match l with
             | [] => (found, [])
             | x :: rest =>
                 let '(f1, x') := activate_first_li target found x in
                 let '(f2, rest') := go f1 rest in
                 (f2, x' :: rest')
             end) false items in
        (found', LiParent text caret id active items')
  | LiBranch _ _ _ _ => (found, li)
  end.

Fixpoint activate_first_items (target : string) (found : bool) (l : list Li)
  : bool * list Li :=
  match l with
  | [] => (found, [])
  | x :: rest =>
      let '(f1, x') := activate_first_li target found x in
      let '(f2, rest') := activate_first_items target f1 rest in
      (f2, x' :: rest')
  end.

Definition activate_first_container (target : string) (found : bool)
    (id : string) (c : Container) : bool * Container :=
  if found then (true, c)
  else if id =? target then
    (true, {| ct_active := true; ct_caret := true; ct_items := ct_items c |})
  else
    let '(found', items') := activate_first_items target false (ct_items c) in
    (found', {| ct_active := ct_active c; ct_caret := ct_caret c;
                ct_items := items' |}).

Definition activate_first (target : string) (doc : TreeView) : TreeView :=
  let '(f1, l) := activate_first_container target false "localBranches" (localBranches doc) in
  let '(f2, r) := activate_first_container target f1 "remoteBranches" (remoteBranches doc) in
  let '(_, t) := activate_first_container target f2 "tags" (tags doc) in
  {| localBranches := l; remoteBranches := r; tags := t |}.

(** What expanding the first element with the id [target] does to a part
    of the page whose expanded and rendered ids were [E] and [R] and are
    [E'] and [R'] afterwards, when [found] tells whether the element was
    met before this part and [found'] whether it was met by its end. *)
Definition first_spec (target : string) (found : bool)
    (E R E' R' : list string) (found' : bool) : Prop :=
  found' = (found || id_listed R target)%bool
  /\ R' = R
  /\ forall x, In x E' <-> In x E \/ (found = false /\ x = target /\ In target R).

Definition identifiers (ids : list string) : Prop :=
  Forall (fun id => is_identifier id = true) ids.

(** How a method call ends: normally, by an exception that leaves the
    page as it was when it was thrown, or outside what is modelled. *)
Inductive Outcome (A : Type) : Type :=
| Completed (result : A)
| Raised (message : string) (page : A)
| OutsideModel.

Arguments Completed {A} result.
Arguments Raised {A} message page.
Arguments OutsideModel {A}.

Definition with_items (c : Container) (items : list Li) : Container :=
  {| ct_active := ct_active c; ct_caret := ct_caret c; ct_items := items |}.

(** The three lists emptied and refilled:
    [$localBranches.empty(); $remoteBranches.empty(); $tags.empty();
     self.buildBranchResultHTML(branch_info_list['local_branch_info_tree']['children'], $localBranches, "localBranches");
     ... "remoteBranches" ... "tags"] *)
Definition rebuild (branch_info_list : BranchInfoList) (doc : TreeView)
  : TreeView :=
  {| localBranches :=
       with_items (localBranches doc)
         (buildBranchResultHTML
            (children_of (local_branch_info_tree branch_info_list)) "localBranches");
     remoteBranches :=
       with_items (remoteBranches doc)
         (buildBranchResultHTML
            (children_of (remote_branch_info_tree branch_info_list)) "remoteBranches");
     tags :=
       with_items (tags doc)
         (buildBranchResultHTML
            (children_of (tag_branch_info_tree branch_info_list)) "tags") |}.

(** [const activeTreeIdsSelector = "#" + activeTreeIds.join(",#");] *)
Definition activeTreeIdsSelector (ids : list string) : string :=
  "#" ++ String.concat ",#" ids.

(** [updateBranchInfo(branch_info_list)]: the expanded ids are captured,
    the lists rebuilt, and the captured ids selected and expanded again.
    [setupTreeViews()] in between registers [togglerClick] on the new
    headers and changes nothing of the state. *)
Definition updateBranchInfo (branch_info_list : BranchInfoList)
    (doc : TreeView) : Outcome TreeView :=
  let captured := activeTreeIds doc in
  let rebuilt := rebuild branch_info_list doc in
  let selector := activeTreeIdsSelector captured in
  match jQuery_query selector with
  | QSyntaxError =>
      Raised ("Syntax error, unrecognized expression: " ++ selector) rebuilt
  | QOutsideModel => OutsideModel
  | QGetElementById id => Completed (activate_first id rebuilt)
  | QSelectAll ids => Completed (activate_all ids rebuilt)
  end.

(** The [update_all] listener, as far as the counter and the branch view
    go: [self.updateAll(ev.payload); self.removeProcessCount();].  An
    exception in [updateBranchInfo] leaves the listener before the
    counter is touched. *)
Definition listen_update_all (branch_info_list : BranchInfoList)
    (app : Main * TreeView) : Outcome (Main * TreeView) :=
  match updateBranchInfo branch_info_list (snd app) with
  | Completed doc => Completed (removeProcessCount (fst app), doc)
  | Raised message doc => Raised message (fst app, doc)
  | OutsideModel => OutsideModel
  end.

(** *** Path identities *)

(** The id given to the nested list reached from the list [container] by
    the segments [segments]: each level appends ['-'] and the segment. *)
Definition path_identity (container : string) (segments : list string)
  : string :=
  fold_left (fun parentTxt text => parentTxt ++ "-" ++ text) segments container.

(** Segment sequences of the nodes that have children, in document order. *)
Fixpoint interior_paths_node (prefix : list string) (t : BranchTree)
  : list (list string) :=
  match t with
  | BNode text _ children =>
      match children with
      | [] => []
      | _ :: _ =>
          (prefix ++ [text])%list
            :: flat_map (interior_paths_node (prefix ++ [text])%list) children
      end
  end.

Definition interior_paths (children : list BranchTree) : list (list string) :=
  flat_map (interior_paths_node []) children.

Definition has_char (c : ascii) (s : string) : bool :=
  negb (all_chars (fun x => negb (x =? c)%char) s).


(** A measure that finds six dots narrower than three. *)
Definition dented (s : string) : Z :=
  if s =? "......" then 1%Z else 10%Z.

(** *** The fitting algorithm in the words of its specification *)

(** The loop of the specification, read on the rendered text: while the
    text is not narrower than [w] and is not just the marker, 4
    characters are removed from its front and the marker is put back.
    [turns] bounds the number of removals; one per character of the path
    is enough, since each removal takes the marker and one character of
    the path. *)
Fixpoint spec_loop (turns : nat) (measure : string -> Z) (w : Z)
    (txt : string) : string :=
  if ((measure txt <? w)%Z || (txt =? ellipsis))%bool then txt
  else match turns with
       | O => txt
       | S turns' =>
           spec_loop turns' measure w (ellipsis ++ substring_from 4 txt)
       end.

(** The algorithm of the specification: the original text is returned
    when it is narrower than the container; otherwise the marker is
    prepended and the loop run. *)
Definition fit_spec (originalText : string) (measure : string -> Z)
    (containerWidth : Z) : string :=
  if (measure originalText <? containerWidth)%Z then originalText
  else spec_loop (String.length originalText) measure containerWidth
                 (ellipsis ++ originalText).

(** What both loops compute, by recursion on the path: the marker
    followed by the longest end of the path that makes the text narrower
    than [w], the bare marker when there is none. *)
Fixpoint fit_suffix (measure : string -> Z) (w : Z) (rest : string) : string :=
  if (measure (ellipsis ++ rest) <? w)%Z then ellipsis ++ rest
  else match rest with
       | EmptyString => ellipsis
       | String _ rest' => fit_suffix measure w rest'
       end.

(** The other reading of the same words: each turn takes 4 characters off
    the path itself and leaves the marker alone. *)
Fixpoint spec_loop_four (turns : nat) (measure : string -> Z) (w : Z)
    (rest : string) : string :=
  if (measure (ellipsis ++ rest) <? w)%Z then ellipsis ++ rest
  else match rest, turns with
       | EmptyString, _ => ellipsis
       | _, O => ellipsis
       | _, S turns' =>
           spec_loop_four turns' measure w (substring_from 4 rest)
       end.

Definition fit_spec_four (originalText : string) (measure : string -> Z)
    (containerWidth : Z) : string :=
  if (measure originalText <? containerWidth)%Z then originalText
  else spec_loop_four (String.length originalText) measure containerWidth
                        originalText.

(** ** Sample pages and payloads *)

Definition local_branch (shorthand : string) : BranchInfo :=
  {| is_head := false; behind := 0; ahead := 0; branch_type := "local";
     full_branch_name := "refs/heads/" ++ shorthand;
     branch_shorthand := shorthand |}.

(** The node of a branch, and the node of a name prefix: the latter has
    children and its [branch_info] is not read. *)
Definition branch_leaf (text shorthand : string) : BranchTree :=
  BNode text (local_branch shorthand) [].

Definition prefix_node (text : string) (children : list BranchTree)
  : BranchTree :=
  BNode text (local_branch "") children.

Definition no_branches : BranchTree := BNode "" (local_branch "") [].

Definition only_local (children : list BranchTree) : BranchInfoList :=
  {| local_branch_info_tree := BNode "" (local_branch "") children;
     remote_branch_info_tree := no_branches;
     tag_branch_info_tree := no_branches |}.

(** A click on the headers of the top-level items labelled [text]. *)
Definition click_header (text : string) (items : list Li) : list Li :=
  map (fun li =>
         match li with
         | LiParent label _ _ _ _ =>
             if label =? text then togglerClick li else li
         | LiBranch _ _ _ _ => li
         end) items.

(** A page on which no list carries [active-tree]. *)
Definition all_collapsed : TreeView :=
  {| localBranches := {| ct_active := false; ct_caret := false; ct_items := [] |};
     remoteBranches := {| ct_active := false; ct_caret := false; ct_items := [] |};
     tags := {| ct_active := false; ct_caret := false; ct_items := [] |} |}.

(** The branches [main], [feature/a], [feature/b] and
    [release/v1/hotfix]. *)
Definition usual_branches : BranchInfoList :=
  only_local
    [ branch_leaf "main" "main";
      prefix_node "feature"
        [branch_leaf "a" "feature/a"; branch_leaf "b" "feature/b"];
      prefix_node "release"
        [prefix_node "v1" [branch_leaf "hotfix" "release/v1/hotfix"]] ].


(** The page that shows [usual_branches] with the three lists open and
    [feature] and [release] opened by the user. *)
Definition usual_page : TreeView :=
  {| localBranches :=
       {| ct_active := true; ct_caret := true;
          ct_items :=
            click_header "release"
              (click_header "feature"
                 (buildBranchResultHTML
                    (children_of (local_branch_info_tree usual_branches))
                    "localBranches")) |};
     remoteBranches := {| ct_active := true; ct_caret := true; ct_items := [] |};
     tags := {| ct_active := true; ct_caret := true; ct_items := [] |} |}.

(** The branches [b/y] and [a,#localBranches-b/x]: the comma and the
    hash are legal in a reference name. *)
Definition comma_branches : BranchInfoList :=
  only_local
    [ prefix_node "b" [branch_leaf "y" "b/y"];
      prefix_node "a,#localBranches-b"
        [branch_leaf "x" "a,#localBranches-b/x"] ].

(** The page that shows them, with [a,#localBranches-b] opened by the
    user and [b] left closed. *)
Definition comma_page : TreeView :=
  {| localBranches :=
       {| ct_active := true; ct_caret := true;
          ct_items :=
            click_header "a,#localBranches-b"
              (buildBranchResultHTML
                 (children_of (local_branch_info_tree comma_branches))
                 "localBranches") |};
     remoteBranches := {| ct_active := false; ct_caret := false; ct_items := [] |};
     tags := {| ct_active := false; ct_caret := false; ct_items := [] |} |}.

(** The branches [fix-ui/x] and [fix/ui/y]. *)
Definition hyphen_branches : list BranchTree :=
  [ prefix_node "fix-ui" [branch_leaf "x" "fix-ui/x"];
    prefix_node "fix" [prefix_node "ui" [branch_leaf "y" "fix/ui/y"]] ].

(** The page that shows them with only the nested list of [fix/ui]
    carrying [active-tree]. *)
Definition hyphen_page : TreeView :=
  {| localBranches :=
       {| ct_active := false; ct_caret := false;
          ct_items :=
            [ LiParent "fix-ui" false "localBranches-fix-ui" false
                [LiBranch "x" None None (local_branch "fix-ui/x")];
              LiParent "fix" false "localBranches-fix" false
                [LiParent "ui" true "localBranches-fix-ui" true
                   [LiBranch "y" None None (local_branch "fix/ui/y")]] ] |};
     remoteBranches := {| ct_active := false; ct_caret := false; ct_items := [] |};
     tags := {| ct_active := false; ct_caret := false; ct_items := [] |} |}.


(** ** Further definitions: refitting, and the run of the coordinator *)

(** The column is dragged: the container of a label gets the client width
    [resize] makes of the old one. *)
Definition resized (resize : Z -> Z) (txt : FilePathTxt) : FilePathTxt :=
  {| data_original_txt := data_original_txt txt;
     textContent := textContent txt;
     container_clientWidth := resize (container_clientWidth txt) |}.

(** What reaches the counter, one at a time: a gesture of the user, or
    one of the events [start-process], [end-process] and [error]. *)
Inductive Step : Type :=
| Gesture (a : UserAction)
| StartProcessEvent
| EndProcessEvent
| ErrorEvent (payload : string).

Definition step (st : Main) (s : Step) : Main :=
  match s with
  | Gesture a => handle a st
  | StartProcessEvent => listen_start_process st
  | EndProcessEvent => listen_end_process st
  | ErrorEvent payload => listen_error payload st
  end.

(** Handlers run to completion, one after the other. *)
Definition run_steps (steps : list Step) (st : Main) : Main :=
  fold_left step steps st.

(** Number of [show()] calls logged so far. *)
Definition show_calls (st : Main) : Z :=
  Z.of_nat (List.length
              (filter (fun e => match e with SpinnerShow => true | _ => false end)
                      (effects st))).

(** ** Further definitions: what a rendered branch list shows *)






(** The page a call leaves behind, when the model says what it is. *)
Definition page_after {A : Type} (o : Outcome A) : option A :=
  match o with
  | Completed page => Some page
  | Raised _ page => Some page
  | OutsideModel => None
  end.

(** ** The lists of changed files and the diff tables *)

(** The icon [prependFileIcon] puts in front of a path. *)
Inductive FileIcon : Type :=
| IconDeleted | IconModified | IconAdded | IconRenamed | IconCopied
| IconConflicted | IconUnknown.

(** [prependFileIcon($row, status)]: the chain of [status === ...] tests. *)
Definition prependFileIcon (status : Z) : FileIcon :=
  if (status =? 2)%Z then IconDeleted
  else if (status =? 3)%Z then IconModified
  else if ((status =? 7) || (status =? 1))%Z then IconAdded
  else if (status =? 4)%Z then IconRenamed
  else if (status =? 5)%Z then IconCopied
  else if (status =? 10)%Z then IconConflicted
  else IconUnknown.

(** The button [updateFilesChangedInfo] puts at the end of a row. *)
Inductive RowButton : Type := StageButton | UnstageButton.

(** A row made by [addFileChangeRow]: the classes [selected-row] and
    [hoverable-row] of its clickable part, the icon, the label, the
    button if there is one, and the values its handlers close over.  As
    for the branch lists, the row is what the parser yields for a path
    without markup characters. *)
Record FileRow : Type := mkFileRow {
  row_selected : bool;
  row_hoverable : bool;
  row_icon : FileIcon;
  row_label : FilePathTxt;
  row_button : option RowButton;
  row_file : FileInfo;
  row_changeType : string;
  row_sha : string
}.

(** [addFileChangeRow($changesDiv, $button, file, changeType, sha)]: the
    row appended to [$changesDiv].  [containerWidth] is the client width
    the layout gives to the container of the new label.  The code pastes
    [file['path']] into the markup of the label, as the attribute
    [data-original-txt] and as its text: the label is what the parser
    yields for a path that is [markup_free] (defined further down).  The
    values the handlers close over - [file], [changeType], [sha] - do
    not go through markup. *)
Definition addFileChangeRow (containerWidth : Z) (button : option RowButton)
    (file : FileInfo) (changeType sha : string) : FileRow :=
  {| row_selected := false;
     row_hoverable := true;
     row_icon := prependFileIcon (status file);
     row_label := {| data_original_txt := path file;
                     textContent := path file;
                     container_clientWidth := containerWidth |};
     row_button := button;
     row_file := file;
     row_changeType := changeType;
     row_sha := sha |}.

(** One line of a [show-file-lines] payload, and the payload. *)
Record FileLine : Type := mkFileLine {
  old_lineno : option Z;
  new_lineno : option Z;
  origin : string;
  file_type : string;
  content : string
}.

Record FileLines : Type := mkFileLines {
  change_type : string;
  file_lines : list FileLine
}.

Inductive LineClass : Type := PlainLine | AddedLine | RemovedLine.

(** A row appended to a diff table, by the pieces the code pastes into
    its markup: the class of the [tr], the two line numbers (nothing for
    [null]), the origin, the language class and the content.  What the
    parser and [hljs.highlightAll()] make of these pieces is not
    modelled: the tables are read only for which of them is written. *)
Record DiffRow : Type := mkDiffRow {
  dr_class : LineClass;
  dr_old : option Z;
  dr_new : option Z;
  dr_origin : string;
  dr_language : string;
  dr_content : string
}.

(** The body of [file_info['file_lines'].forEach] in [showFileDiff]. *)
Definition diff_row (line : FileLine) : DiffRow :=
  {| dr_class := if origin line =? "+" then AddedLine
                 else if origin line =? "-" then RemovedLine
                 else PlainLine;
     dr_old := old_lineno line;
     dr_new := new_lineno line;
     dr_origin := origin line;
     dr_language := file_type line;
     dr_content := content line |}.

(** The part of the page the changed files live in: the caption of the
    Changes tab, the three lists of rows and the two diff tables; and the
    context menu the handlers of the rows close: whether it is shown, and
    the short name and type of the branch its Delete button was made
    for, if it has been filled. *)
Record ChangesView : Type := mkChangesView {
  changes_tab : string;
  unstagedChanges : list FileRow;
  stagedChanges : list FileRow;
  commitChanges : list FileRow;
  fileDiffTable : list DiffRow;
  commitFileDiffTable : list DiffRow;
  contextMenu_shown : bool;
  contextMenu_branch : option (string * string)
}.

(** The payload of [update_changes], also part of [update_all]. *)
Record FilesChangedInfo : Type := mkFilesChangedInfo {
  files_changed : Z;
  unstaged_files : list FileInfo;
  staged_files : list FileInfo
}.

(** The payload of [commit-info], as far as the lists read it. *)
Record CommitInfo : Type := mkCommitInfo {
  sha : string;
  changed_files : list FileInfo
}.

(** [$selectedRow.removeClass('selected-row'); $selectedRow.addClass('hoverable-row')]
    on one row: it applies to the rows that carry [selected-row]. *)
Definition unselect_row (r : FileRow) : FileRow :=
  if row_selected r then
    {| row_selected := false; row_hoverable := true;
       row_icon := row_icon r; row_label := row_label r;
       row_button := row_button r; row_file := row_file r;
       row_changeType := row_changeType r; row_sha := row_sha r |}
  else r.

(** [unselectAllRows()]: every selected row of the page, and
    [$('#fileDiffTable').empty()]. *)
Definition unselectAllRows (v : ChangesView) : ChangesView :=
  {| changes_tab := changes_tab v;
     unstagedChanges := map unselect_row (unstagedChanges v);
     stagedChanges := map unselect_row (stagedChanges v);
     commitChanges := map unselect_row (commitChanges v);
     fileDiffTable := [];
     commitFileDiffTable := commitFileDiffTable v;
     contextMenu_shown := contextMenu_shown v;
     contextMenu_branch := contextMenu_branch v |}.

(** [selectRow($row)]: [addClass('selected-row')], [removeClass('hoverable-row')]. *)
Definition selectRow (r : FileRow) : FileRow :=
  {| row_selected := true; row_hoverable := false;
     row_icon := row_icon r; row_label := row_label r;
     row_button := row_button r; row_file := row_file r;
     row_changeType := row_changeType r; row_sha := row_sha r |}.

(** [truncateFilePathText] on the label of a row. *)
Definition truncate_row (measure : string -> Z) (r : FileRow) : FileRow :=
  {| row_selected := row_selected r; row_hoverable := row_hoverable r;
     row_icon := row_icon r;
     row_label :=
       {| data_original_txt := data_original_txt (row_label r);
          textContent := fit (data_original_txt (row_label r)) measure
                             (container_clientWidth (row_label r));
          container_clientWidth := container_clientWidth (row_label r) |};
     row_button := row_button r; row_file := row_file r;
     row_changeType := row_changeType r; row_sha := row_sha r |}.

(** [truncateFilePathText()] on the page: the labels are those of the
    rows of the three lists. *)
Definition truncate_page (measure : string -> Z) (v : ChangesView)
  : ChangesView :=
  {| changes_tab := changes_tab v;
     unstagedChanges := map (truncate_row measure) (unstagedChanges v);
     stagedChanges := map (truncate_row measure) (stagedChanges v);
     commitChanges := map (truncate_row measure) (commitChanges v);
     fileDiffTable := fileDiffTable v;
     commitFileDiffTable := commitFileDiffTable v;
     contextMenu_shown := contextMenu_shown v;
     contextMenu_branch := contextMenu_branch v |}.

(** A number put into a string, as [+] does for an integer. *)
Definition number_text (n : Z) : string := NilZero.string_of_int (Z.to_int n).

(** [updateFilesChangedInfo(files_changed_info_list)].  [layout] gives
    the client width of the label containers of a list, by the change
    type of its rows. *)
Definition updateFilesChangedInfo (measure : string -> Z)
    (layout : string -> Z) (files_changed_info_list : FilesChangedInfo)
    (v : ChangesView) : ChangesView :=
  let v := unselectAllRows v in
  truncate_page measure
    {| changes_tab :=
         if (0 <? files_changed files_changed_info_list)%Z
         then "Changes (" ++ number_text (files_changed files_changed_info_list) ++ ")"
         else "Changes";
       unstagedChanges :=
         map (fun unstagedFile =>
                addFileChangeRow (layout "unstaged") (Some StageButton)
                                 unstagedFile "unstaged" "")
             (unstaged_files files_changed_info_list);
       stagedChanges :=
         map (fun stagedFile =>
                addFileChangeRow (layout "staged") (Some UnstageButton)
                                 stagedFile "staged" "")
             (staged_files files_changed_info_list);
       commitChanges := commitChanges v;
       fileDiffTable := fileDiffTable v;
       commitFileDiffTable := commitFileDiffTable v;
       contextMenu_shown := contextMenu_shown v;
     contextMenu_branch := contextMenu_branch v |}.

(** [showCommitInfo(commit_info)], as far as the lists and tables go: the
    list of the commit and its diff table are emptied, a row without
    button is added for every changed file, and the labels are fitted. *)
Definition showCommitInfo (measure : string -> Z) (layout : string -> Z)
    (commit_info : CommitInfo) (v : ChangesView) : ChangesView :=
  truncate_page measure
    {| changes_tab := changes_tab v;
       unstagedChanges := unstagedChanges v;
       stagedChanges := stagedChanges v;
       commitChanges :=
         map (fun file =>
                addFileChangeRow (layout "commit") None file "commit"
                                 (sha commit_info))
             (changed_files commit_info);
       fileDiffTable := fileDiffTable v;
       commitFileDiffTable := [];
       contextMenu_shown := contextMenu_shown v;
     contextMenu_branch := contextMenu_branch v |}.

(** [showFileDiff(file_info)]: the table is chosen by [change_type]; for
    any other change type [$fileDiffTable] stays [undefined] and
    [$fileDiffTable.empty()] throws a [TypeError] before anything is
    written. *)
Definition showFileDiff (file_info : FileLines) (v : ChangesView)
  : Outcome ChangesView :=
  if change_type file_info =? "commit" then
    Completed
      {| changes_tab := changes_tab v;
         unstagedChanges := unstagedChanges v;
         stagedChanges := stagedChanges v;
         commitChanges := commitChanges v;
         fileDiffTable := fileDiffTable v;
         commitFileDiffTable := map diff_row (file_lines file_info);
         contextMenu_shown := contextMenu_shown v;
     contextMenu_branch := contextMenu_branch v |}
  else if ((change_type file_info =? "unstaged")
           || (change_type file_info =? "staged"))%bool then
    Completed
      {| changes_tab := changes_tab v;
         unstagedChanges := unstagedChanges v;
         stagedChanges := stagedChanges v;
         commitChanges := commitChanges v;
         fileDiffTable := map diff_row (file_lines file_info);
         commitFileDiffTable := commitFileDiffTable v;
         contextMenu_shown := contextMenu_shown v;
     contextMenu_branch := contextMenu_branch v |}
  else Raised "TypeError" v.

(** The three lists, and the rows of one of them. *)
Inductive ChangeList : Type := UnstagedList | StagedList | CommitList.

Definition rows_of (l : ChangeList) (v : ChangesView) : list FileRow :=
  match l with
  | UnstagedList => unstagedChanges v
  | StagedList => stagedChanges v
  | CommitList => commitChanges v
  end.

Definition all_rows (v : ChangesView) : list FileRow :=
  (unstagedChanges v ++ stagedChanges v ++ commitChanges v)%list.

(** The [i]-th element of a list replaced by its image under [f]. *)
Fixpoint at_index {A : Type} (f : A -> A) (i : nat) (l : list A) : list A :=
  match l, i with
  | [], _ => []
  | x :: rest, O => f x :: rest
  | x :: rest, S i' => x :: at_index f i' rest
  end.

Definition with_rows (l : ChangeList) (rows : list FileRow) (v : ChangesView)
  : ChangesView :=
  {| changes_tab := changes_tab v;
     unstagedChanges := match l with UnstagedList => rows | _ => unstagedChanges v end;
     stagedChanges := match l with StagedList => rows | _ => stagedChanges v end;
     commitChanges := match l with CommitList => rows | _ => commitChanges v end;
     fileDiffTable := fileDiffTable v;
     commitFileDiffTable := commitFileDiffTable v;
     contextMenu_shown := contextMenu_shown v;
     contextMenu_branch := contextMenu_branch v |}.

Definition hide_contextMenu (v : ChangesView) : ChangesView :=
  {| changes_tab := changes_tab v;
     unstagedChanges := unstagedChanges v;
     stagedChanges := stagedChanges v;
     commitChanges := commitChanges v;
     fileDiffTable := fileDiffTable v;
     commitFileDiffTable := commitFileDiffTable v;
     contextMenu_shown := false;
     contextMenu_branch := contextMenu_branch v |}.

(** The click handler of the [i]-th row of a list, set by
    [addFileChangeRow]:
    [e.stopPropagation(); $('#contextMenu').hide(); self.unselectAllRows();
     self.selectRow($text); emit('file-diff', {file_path: file['path'],
     change_type: changeType, sha: sha})].
    A position without a row has no handler. *)
Definition click_row (l : ChangeList) (i : nat) (app : ChangesView * Main)
  : ChangesView * Main :=
  let '(v, st) := app in
  match nth_error (rows_of l v) i with
  | None => app
  | Some r =>
      let v := unselectAllRows (hide_contextMenu v) in
      (with_rows l (at_index selectRow i (rows_of l v)) v,
       handle (ClickFileRow (row_file r) (row_changeType r) (row_sha r)) st)
  end.

(** The click handler of the button of the [i]-th row:
    [e.stopPropagation(); emit('stage', unstagedFile)], or the same with
    ['unstage']. *)
Definition click_row_button (l : ChangeList) (i : nat)
    (app : ChangesView * Main) : ChangesView * Main :=
  let '(v, st) := app in
  match nth_error (rows_of l v) i with
  | None => app
  | Some r =>
      match row_button r with
      | Some StageButton => (v, handle (ClickStageButton (row_file r)) st)
      | Some UnstageButton => (v, handle (ClickUnstageButton (row_file r)) st)
      | None => app
      end
  end.

(** [showContextMenu(event, branchShorthand, branchType)], called by the
    [contextmenu] handler of a branch row: the menu is emptied, given a
    Delete button for this branch, and shown. *)
Definition showContextMenu (branchShorthand branchType : string)
    (v : ChangesView) : ChangesView :=
  {| changes_tab := changes_tab v;
     unstagedChanges := unstagedChanges v;
     stagedChanges := stagedChanges v;
     commitChanges := commitChanges v;
     fileDiffTable := fileDiffTable v;
     commitFileDiffTable := commitFileDiffTable v;
     contextMenu_shown := true;
     contextMenu_branch := Some (branchShorthand, branchType) |}.

(** A click on the Delete button of the menu, which can be clicked while
    the menu is shown: its handler runs, and the click goes on to the
    handler of the window, which hides the menu. *)
Definition click_deleteBtn (app : ChangesView * Main) : ChangesView * Main :=
  let '(v, st) := app in
  match contextMenu_shown v, contextMenu_branch v with
  | true, Some (branchShorthand, branchType) =>
      (hide_contextMenu v, handle (ClickDeleteBtn branchShorthand branchType) st)
  | _, _ => app
  end.

(** What happens on the tabs and the menu, one at a time. *)
Inductive ChangesStep : Type :=
| UpdateChanges (payload : FilesChangedInfo)
| CommitInfoArrives (payload : CommitInfo)
| FileLinesArrive (payload : FileLines)
| RowClicked (l : ChangeList) (i : nat)
| RowButtonClicked (l : ChangeList) (i : nat)
| Refit
| WindowClicked
| BranchContextMenu (branchShorthand branchType : string)
| DeleteClicked.

(** The handler of a step.  An exception ends the handler and leaves the
    page as it is then. *)
Definition changes_step (measure : string -> Z) (layout : string -> Z)
    (app : ChangesView * Main) (s : ChangesStep) : ChangesView * Main :=
  match s with
  | UpdateChanges payload =>
      (updateFilesChangedInfo measure layout payload (fst app), snd app)
  | CommitInfoArrives payload =>
      (showCommitInfo measure layout payload (fst app), snd app)
  | FileLinesArrive payload =>
      match showFileDiff payload (fst app) with
      | Completed v => (v, snd app)
      | Raised _ v => (v, snd app)
      | OutsideModel => app
      end
  | RowClicked l i => click_row l i app
  | RowButtonClicked l i => click_row_button l i app
  | Refit => (truncate_page measure (fst app), snd app)
  | WindowClicked => (hide_contextMenu (fst app), snd app)
  | BranchContextMenu branchShorthand branchType =>
      (showContextMenu branchShorthand branchType (fst app), snd app)
  | DeleteClicked => click_deleteBtn app
  end.

Definition run_changes (measure : string -> Z) (layout : string -> Z)
    (steps : list ChangesStep) (app : ChangesView * Main) : ChangesView * Main :=
  fold_left (changes_step measure layout) steps app.

(** The page before the first event: empty lists and tables. *)
Definition empty_changes : ChangesView :=
  {| changes_tab := "Changes";
     unstagedChanges := []; stagedChanges := []; commitChanges := [];
     fileDiffTable := []; commitFileDiffTable := [];
     contextMenu_shown := false;
     contextMenu_branch := None |}.

(** What a row must be for its list: the button, change type and commit
    the handlers were given, the icon of the file they act on, and one
    of the two classes of selection. *)
Definition row_fits_list (l : ChangeList) (r : FileRow) : Prop :=
  row_icon r = prependFileIcon (status (row_file r))
  /\ row_hoverable r = negb (row_selected r)
  /\ match l with
     | UnstagedList =>
         row_button r = Some StageButton /\ row_changeType r = "unstaged"
         /\ row_sha r = ""
     | StagedList =>
         row_button r = Some UnstageButton /\ row_changeType r = "staged"
         /\ row_sha r = ""
     | CommitList => row_button r = None /\ row_changeType r = "commit"
     end.

Definition selected_count (rows : list FileRow) : nat :=
  List.length (filter row_selected rows).

(** The rows of every list are what their list asks for, and at most one
    row of the page is selected. *)
Definition tidy (v : ChangesView) : Prop :=
  Forall (row_fits_list UnstagedList) (unstagedChanges v)
  /\ Forall (row_fits_list StagedList) (stagedChanges v)
  /\ Forall (row_fits_list CommitList) (commitChanges v)
  /\ (selected_count (all_rows v) <= 1)%nat.

(** Commands that delete a branch or a tag, and how many of them the log
    holds. *)
Definition is_delete_command (e : Effect) : bool :=
  match e with
  | Emit (CmdDeleteLocalBranch _) | Emit (CmdDeleteRemoteBranch _)
  | Emit (CmdDeleteTag _) => true
  | _ => false
  end.

Definition delete_commands (st : Main) : nat :=
  List.length (filter is_delete_command (effects st)).

Definition is_menu_opening (s : ChangesStep) : bool :=
  match s with BranchContextMenu _ _ => true | _ => false end.

Definition menu_openings (steps : list ChangesStep) : nat :=
  List.length (filter is_menu_opening steps).

(** ** Clicks on the headers of the branch view *)

(** Whether every header has its caret turned exactly when the list
    below it carries [active-tree]. *)
Fixpoint carets_follow_li (li : Li) : bool :=
  match li with
  | LiParent _ caret _ active items =>
      Bool.eqb caret active && forallb carets_follow_li items
  | LiBranch _ _ _ _ => true
  end.

Definition carets_follow_container (c : Container) : bool :=
  Bool.eqb (ct_caret c) (ct_active c) && forallb carets_follow_li (ct_items c).

Definition carets_follow (doc : TreeView) : bool :=
  carets_follow_container (localBranches doc)
  && carets_follow_container (remoteBranches doc)
  && carets_follow_container (tags doc).

(** [togglerClick] run for the header found by going down from an item
    along [path], the positions among the items of each nested list.
    [setupTreeViews] registers the one function [togglerClick] on every
    header; registering it again on a header that has it already adds
    nothing, so one click toggles once.  A row of a branch has no header
    and no handler. *)
Fixpoint toggle_at (path : list nat) (li : Li) {struct path} : Li :=
  match path with
  | [] => togglerClick li
  | i :: rest =>
      match li with
      | LiParent text caret id active items =>
          LiParent text caret id active (at_index (toggle_at rest) i items)
      | LiBranch _ _ _ _ => li
      end
  end.

(** The same for the header of one of the three lists. *)
Definition toggle_container (c : Container) : Container :=
  {| ct_active := negb (ct_active c);
     ct_caret := negb (ct_caret c);
     ct_items := ct_items c |}.

Inductive TreeName : Type := LocalTree | RemoteTree | TagTree.

Definition in_tree (tree : TreeName) (f : Container -> Container)
    (doc : TreeView) : TreeView :=
  match tree with
  | LocalTree =>
      {| localBranches := f (localBranches doc);
         remoteBranches := remoteBranches doc;
         tags := tags doc |}
  | RemoteTree =>
      {| localBranches := localBranches doc;
         remoteBranches := f (remoteBranches doc);
         tags := tags doc |}
  | TagTree =>
      {| localBranches := localBranches doc;
         remoteBranches := remoteBranches doc;
         tags := f (tags doc) |}
  end.

(** The headers of the branch view: those of the three lists, and the
    one reached in a list from its [i]-th item along [path]. *)
Inductive Header : Type :=
| ContainerHeader (tree : TreeName)
| ItemHeader (tree : TreeName) (i : nat) (path : list nat).

Definition header_click (h : Header) (doc : TreeView) : TreeView :=
  match h with
  | ContainerHeader tree => in_tree tree toggle_container doc
  | ItemHeader tree i path =>
      in_tree tree
        (fun c => with_items c (at_index (toggle_at path) i (ct_items c))) doc
  end.

(** What happens to the branch view: a header is clicked, or branches
    arrive.  The page a step leaves is the one its handler leaves, also
    when the handler ends by an exception. *)
Inductive TreeStep : Type :=
| HeaderClicked (h : Header)
| BranchInfoArrives (branch_info_list : BranchInfoList).

Definition tree_step (doc : TreeView) (s : TreeStep) : option TreeView :=
  match s with
  | HeaderClicked h => Some (header_click h doc)
  | BranchInfoArrives branch_info_list =>
      page_after (updateBranchInfo branch_info_list doc)
  end.

Fixpoint run_tree (steps : list TreeStep) (doc : TreeView) : option TreeView :=
  match steps with
  | [] => Some doc
  | s :: rest =>
      match tree_step doc s with
      | Some doc' => run_tree rest doc'
      | None => None
      end
  end.

(** ** The earlier revision of the branch view ([ui/main.js]) *)

Module Earlier.

(** One entry of [branch_info_list]; every field is a string there. *)
Record BranchResult : Type := mkBranchResult {
  is_head : string;
  branch_name : string;
  behind : string;
  ahead : string;
  branch_type : string;
  full_branch_name : string
}.

(** A row of one of the three lists: the text and the counters the
    code pastes into its markup (what the parser makes of them is not
    modelled), the branch name its [contextmenu] handler hands to
    [showContextMenu] and the command its [dblclick] handler emits after
    [addProcessCount], if it was given these handlers. *)
Record BranchRow : Type := mkBranchRow {
  br_text : string;
  br_behind : option string;
  br_ahead : option string;
  br_contextmenu : option string;
  br_dblclick : option Command
}.

Record Lists : Type := mkLists {
  ls_local : list BranchRow;
  ls_remote : list BranchRow;
  ls_tags : list BranchRow
}.

(** [$branchResult] with the handlers it is given before it is
    appended. *)
Definition branch_row (branchResult : BranchResult)
    (contextmenu : option string) (dblclick : option Command) : BranchRow :=
  {| br_text := (if is_head branchResult =? "true" then "* " else "")
                ++ branch_name branchResult;
     br_behind := if behind branchResult =? "0" then None
                  else Some (behind branchResult);
     br_ahead := if ahead branchResult =? "0" then None
                 else Some (ahead branchResult);
     br_contextmenu := contextmenu;
     br_dblclick := dblclick |}.

Definition remote_row (branchResult : BranchResult) : BranchRow :=
  branch_row branchResult (Some (branch_name branchResult))
    (Some (CmdCheckoutRemote (full_branch_name branchResult)
                             (branch_name branchResult))).

Definition tag_row (branchResult : BranchResult) : BranchRow :=
  branch_row branchResult None None.

Definition local_row (branchResult : BranchResult) : BranchRow :=
  branch_row branchResult (Some (branch_name branchResult))
    (Some (CmdCheckout (full_branch_name branchResult))).

(** The body of [branch_info_list.forEach]. *)
Definition append_branch (lists : Lists) (branchResult : BranchResult) : Lists :=
  if branch_type branchResult =? "remote" then
    {| ls_local := ls_local lists;
       ls_remote := (ls_remote lists ++ [remote_row branchResult])%list;
       ls_tags := ls_tags lists |}
  else if branch_type branchResult =? "tag" then
    {| ls_local := ls_local lists;
       ls_remote := ls_remote lists;
       ls_tags := (ls_tags lists ++ [tag_row branchResult])%list |}
  else
    {| ls_local := (ls_local lists ++ [local_row branchResult])%list;
       ls_remote := ls_remote lists;
       ls_tags := ls_tags lists |}.

(** [updateBranchInfo(branch_info_list)] of the earlier revision: the
    three lists are emptied and every entry is appended to one of
    them. *)
Definition updateBranchInfo (branch_info_list : list BranchResult)
    (lists : Lists) : Lists :=
  fold_left append_branch branch_info_list
    {| ls_local := []; ls_remote := []; ls_tags := [] |}.





End Earlier.

(** ** The whole refresh ([updateAll]) *)









(** ** Strings that markup leaves as they are *)

(** The code builds elements by pasting payload strings into markup
    that is then parsed.  These are the characters that markup gives a
    meaning to, or that the parser replaces: the double quote (which
    ends an attribute value), the ampersand (which starts a character
    reference), the angle brackets, NUL and carriage return.  A string
    without them comes out of the parser as it went in, as an attribute
    value and as text. *)
Definition markup_char (c : ascii) : bool :=
  let n := nat_of_ascii c in
  ((n =? 34) || (n =? 38) || (n =? 60) || (n =? 62) || (n =? 0) || (n =? 13))%nat.

Definition markup_free (s : string) : bool :=
  all_chars (fun c => negb (markup_char c)) s.

Fixpoint markup_free_tree (t : BranchTree) : bool :=
  match t with
  | BNode text _ children =>
      markup_free text && forallb markup_free_tree children
  end.

(** Payloads of branches whose node texts are words of letters, digits,
    underscores and hyphens, and steps that carry such payloads. *)
Fixpoint plain_tree (t : BranchTree) : bool :=
  match t with
  | BNode text _ children =>
      all_chars is_ident_char text && forallb plain_tree children
  end.

Definition plain_branches (branch_info_list : BranchInfoList) : bool :=
  forallb plain_tree (children_of (local_branch_info_tree branch_info_list))
  && forallb plain_tree (children_of (remote_branch_info_tree branch_info_list))
  && forallb plain_tree (children_of (tag_branch_info_tree branch_info_list)).

Definition plain_step (s : TreeStep) : bool :=
  match s with
  | HeaderClicked _ => true
  | BranchInfoArrives branch_info_list => plain_branches branch_info_list
  end.

(** The diff table a list of rows does not have its diffs shown in. *)
Definition other_table_of (l : ChangeList) (v : ChangesView) : list DiffRow :=
  match l with
  | UnstagedList | StagedList => commitFileDiffTable v
  | CommitList => fileDiffTable v
  end.

(* ===================================================================== *)
(** * Part II. Theorems                                                   *)
(* ===================================================================== *)

Local Open Scope Z_scope.

(** ** The activity counter *)

Section ActivityCounter.

Lemma coherent_startup : coherent startup.
Proof. split; [cbn; lia | reflexivity]. Qed.

Lemma coherent_addProcessCount (st : Main) :
  coherent st -> coherent (addProcessCount st).
Proof.
  intros [Hpos Hvis]. split; cbn; [lia |].
  symmetry. apply Z.ltb_lt. lia.
Qed.

Lemma coherent_removeProcessCount (st : Main) :
  coherent st -> coherent (removeProcessCount st).
Proof.
  intros [Hpos Hvis]. unfold removeProcessCount, coherent.
  destruct (Z.leb_spec (processCount st - 1) 0) as [Hle | Hgt]; cbn.
  - destruct (Z.ltb_spec (processCount st - 1) 0); cbn.
    + split; [lia | reflexivity].
    + split; [lia |]. symmetry. apply Z.ltb_ge. lia.
  - split; [lia |]. rewrite Hvis.
    transitivity true; [apply Z.ltb_lt | symmetry; apply Z.ltb_lt]; lia.
Qed.

Lemma coherent_apply_op (st : Main) (op : CounterOp) :
  coherent st -> coherent (apply_op st op).
Proof.
  destruct op; [apply coherent_addProcessCount | apply coherent_removeProcessCount].
Qed.

Lemma coherent_run_ops (ops : list CounterOp) :
  forall st, coherent st -> coherent (run_ops ops st).
Proof.
  induction ops as [| op ops IH]; intros st Hst; [exact Hst |].
  apply IH. now apply coherent_apply_op.
Qed.

Lemma starts_cons (op : CounterOp) (ops : list CounterOp) :
  starts (op :: ops) = (if is_start op then 1 else 0) + starts ops.
Proof.
  unfold starts. cbn [filter]. destruct (is_start op); cbn [List.length]; lia.
Qed.

Lemma ends_cons (op : CounterOp) (ops : list CounterOp) :
  ends (op :: ops) = (if is_end op then 1 else 0) + ends ops.
Proof.
  unfold ends. cbn [filter]. destruct (is_end op); cbn [List.length]; lia.
Qed.

(** What one call does to the counter. *)
Lemma processCount_add (st : Main) :
  processCount (addProcessCount st) = processCount st + 1.
Proof. reflexivity. Qed.

Lemma processCount_remove (st : Main) :
  processCount (removeProcessCount st) = Z.max 0 (processCount st - 1).
Proof.
  unfold removeProcessCount.
  destruct (Z.leb_spec (processCount st - 1) 0); cbn;
    [destruct (Z.ltb_spec (processCount st - 1) 0) |]; lia.
Qed.

Lemma effects_remove (st : Main) :
  effects (removeProcessCount st)
  = (effects st ++ (if processCount st <=? 1 then [SpinnerHide] else []))%list.
Proof.
  unfold removeProcessCount.
  destruct (Z.leb_spec (processCount st - 1) 0);
    destruct (Z.leb_spec (processCount st) 1); cbn; try lia;
    [reflexivity | now rewrite app_nil_r].
Qed.

Lemma spinnerVisible_remove (st : Main) :
  spinnerVisible (removeProcessCount st)
  = (1 <? processCount st) && spinnerVisible st.
Proof.
  unfold removeProcessCount.
  destruct (Z.leb_spec (processCount st - 1) 0);
    destruct (Z.ltb_spec 1 (processCount st)); cbn; try lia; reflexivity.
Qed.

Lemma hide_calls_add (st : Main) :
  hide_calls (addProcessCount st) = hide_calls st.
Proof.
  unfold hide_calls. cbn [addProcessCount effects].
  rewrite filter_app, length_app. cbn. lia.
Qed.

Lemma hide_calls_remove (st : Main) :
  hide_calls (removeProcessCount st)
  = hide_calls st + (if processCount st <=? 1 then 1 else 0).
Proof.
  unfold hide_calls. rewrite effects_remove, filter_app, length_app.
  destruct (processCount st <=? 1); cbn; lia.
Qed.

(** The counter after an interleaving, from any coherent state. *)
Lemma processCount_run_ops (ops : list CounterOp) :
  forall st, coherent st ->
    processCount (run_ops ops st)
    = processCount st + starts ops - ends ops + absorbed_ends ops st.
Proof.
  induction ops as [| op ops IH]; intros st Hst.
  - cbn. unfold starts, ends. cbn. lia.
  - cbn [run_ops fold_left]. fold (run_ops ops (apply_op st op)).
    rewrite IH by now apply coherent_apply_op.
    rewrite starts_cons, ends_cons. cbn [absorbed_ends].
    destruct Hst as [Hpos _].
    destruct op; cbn [apply_op is_start is_end andb].
    + rewrite processCount_add. lia.
    + rewrite processCount_remove.
      destruct (Z.leb_spec (processCount st) 0); lia.
Qed.

(** Calls of [hide()] after an interleaving. *)
Lemma hide_calls_run_ops (ops : list CounterOp) :
  forall st, coherent st ->
    hide_calls (run_ops ops st)
    = hide_calls st + idle_transitions ops st + absorbed_ends ops st.
Proof.
  induction ops as [| op ops IH]; intros st Hst.
  - cbn. lia.
  - cbn [run_ops fold_left]. fold (run_ops ops (apply_op st op)).
    rewrite IH by now apply coherent_apply_op.
    cbn [idle_transitions absorbed_ends].
    destruct Hst as [Hpos _].
    destruct op; cbn [apply_op is_end andb].
    + rewrite hide_calls_add, processCount_add.
      destruct (Z.ltb_spec 0 (processCount st)); cbn [andb];
        [destruct (Z.eqb_spec (processCount st + 1) 0) |]; lia.
    + rewrite hide_calls_remove, processCount_remove.
      destruct (Z.ltb_spec 0 (processCount st));
        destruct (Z.leb_spec (processCount st) 0);
        destruct (Z.leb_spec (processCount st) 1);
        destruct (Z.eqb_spec (Z.max 0 (processCount st - 1)) 0);
        cbn [andb]; lia.
Qed.

(** The spinner goes from shown to hidden at the transitions into 0 and
    nowhere else. *)
Lemma spinner_hidings_run_ops (ops : list CounterOp) :
  forall st, coherent st -> spinner_hidings ops st = idle_transitions ops st.
Proof.
  induction ops as [| op ops IH]; intros st Hst; [reflexivity |].
  cbn [spinner_hidings idle_transitions].
  rewrite IH by now apply coherent_apply_op.
  f_equal.
  pose proof (coherent_apply_op st op Hst) as [Hpos' Hvis'].
  destruct Hst as [Hpos Hvis]. rewrite Hvis, Hvis'.
  destruct (Z.ltb_spec 0 (processCount st));
    destruct (Z.ltb_spec 0 (processCount (apply_op st op)));
    destruct (Z.eqb_spec (processCount (apply_op st op)) 0);
    cbn; try reflexivity; lia.
Qed.

Lemma run_ops_app (ops1 ops2 : list CounterOp) (st : Main) :
  run_ops (ops1 ++ ops2) st = run_ops ops2 (run_ops ops1 st).
Proof. unfold run_ops. apply fold_left_app. Qed.

Lemma processCount_repeat_start (n : nat) :
  forall st, processCount (run_ops (repeat OpStart n) st)
             = processCount st + Z.of_nat n.
Proof.
  induction n as [| n IH]; intros st; [cbn; lia |].
  cbn [repeat run_ops fold_left]. fold (run_ops (repeat OpStart n) (apply_op st OpStart)).
  rewrite IH. cbn [apply_op]. rewrite processCount_add. lia.
Qed.

Lemma processCount_repeat_end (m : nat) :
  forall st, 0 <= processCount st ->
    processCount (run_ops (repeat OpEnd m) st)
    = Z.max 0 (processCount st - Z.of_nat m).
Proof.
  induction m as [| m IH]; intros st Hst; [cbn; lia |].
  cbn [repeat run_ops fold_left]. fold (run_ops (repeat OpEnd m) (apply_op st OpEnd)).
  cbn [apply_op]. rewrite IH; rewrite processCount_remove; lia.
Qed.

(** C1, as the code has it.  For every interleaving [ops] of start() and
    end() calls run from the start-up state: the final counter is
    N - M plus the number of end() calls absorbed at 0, hence at least
    max(0, N - M); it is max(0, N - M) when all start() calls come before
    all end() calls; hide() is called once per transition into 0 from a
    positive value and once more per absorbed end(); and the spinner
    itself goes from shown to hidden exactly once per transition into 0
    from a positive value. *)
Theorem counter_final_value_and_idle_signals :
  forall ops : list CounterOp,
    processCount (run_ops ops startup)
      = starts ops - ends ops + absorbed_ends ops startup
    /\ Z.max 0 (starts ops - ends ops) <= processCount (run_ops ops startup)
    /\ (forall n m : nat,
          processCount (run_ops (repeat OpStart n ++ repeat OpEnd m) startup)
          = Z.max 0 (Z.of_nat n - Z.of_nat m))
    /\ hide_calls (run_ops ops startup)
       = idle_transitions ops startup + absorbed_ends ops startup
    /\ spinner_hidings ops startup = idle_transitions ops startup.
Proof.
  intros ops.
  pose proof (processCount_run_ops ops startup coherent_startup) as Hcount.
  pose proof (coherent_run_ops ops startup coherent_startup) as [Hpos _].
  assert (Habs : forall l st, 0 <= absorbed_ends l st).
  { induction l as [| op l IH]; intros st; cbn [absorbed_ends]; [lia |].
    specialize (IH (apply_op st op)).
    destruct (is_end op && (processCount st <=? 0)); lia. }
  specialize (Habs ops startup).
  cbn [processCount startup] in Hcount.
  repeat split.
  - lia.
  - lia.
  - intros n m. rewrite run_ops_app, processCount_repeat_end.
    + rewrite processCount_repeat_start. cbn. lia.
    + rewrite processCount_repeat_start. cbn. lia.
  - rewrite hide_calls_run_ops by apply coherent_startup. cbn. lia.
  - apply spinner_hidings_run_ops, coherent_startup.
Qed.

(** C1 as stated fails: an end() that arrives before its start() is
    absorbed, so one start() and one end() can leave the counter at 1
    where max(0, N - M) is 0; and a lone end() calls hide() although the
    counter never left 0. *)
Lemma counter_final_value_counterexample :
  processCount (run_ops [OpEnd; OpStart] startup)
    <> Z.max 0 (starts [OpEnd; OpStart] - ends [OpEnd; OpStart])
  /\ hide_calls (run_ops [OpEnd] startup) <> idle_transitions [OpEnd] startup.
Proof. split; vm_compute; discriminate. Qed.

(** C6, as the code has it.  In every state reached from start-up by
    start() and end() calls the counter is not negative and the spinner is
    shown exactly when the counter is positive; end() leaves
    max(0, counter - 1), so a decrement below 0 is clamped to 0; and end()
    calls hide() whenever it leaves the counter at 0, also when the
    counter was 0 already and the spinner hidden. *)
Theorem counter_never_negative :
  forall ops : list CounterOp,
    let st := run_ops ops startup in
    0 <= processCount st
    /\ spinnerVisible st = (0 <? processCount st)
    /\ processCount (addProcessCount st) = processCount st + 1
    /\ processCount (removeProcessCount st) = Z.max 0 (processCount st - 1)
    /\ spinnerVisible (removeProcessCount st) = (1 <? processCount st)
    /\ effects (removeProcessCount st)
       = (effects st ++ (if processCount st <=? 1 then [SpinnerHide] else []))%list.
Proof.
  intros ops st.
  pose proof (coherent_run_ops ops startup coherent_startup) as [Hpos Hvis].
  fold st in Hpos, Hvis.
  repeat split; try assumption.
  - apply processCount_remove.
  - rewrite spinnerVisible_remove, Hvis.
    destruct (Z.ltb_spec 1 (processCount st));
      destruct (Z.ltb_spec 0 (processCount st)); cbn; try reflexivity; lia.
  - apply effects_remove.
Qed.

(** C6 as stated fails in one point: the end() that is clamped at 0 does
    call hide() again. *)
Lemma clamped_end_calls_hide :
  processCount startup = 0
  /\ processCount (removeProcessCount startup) = 0
  /\ effects (removeProcessCount startup) = [SpinnerHide]
  /\ hide_calls (removeProcessCount startup) <> hide_calls startup.
Proof. repeat split; vm_compute; discriminate. Qed.

(** Three commands overlap and two complete: the spinner is still shown;
    the third completion hides it, with the one hide() of the run. *)
Remark three_overlapping_commands :
  let busy := run_ops [OpStart; OpStart; OpStart; OpEnd; OpEnd] startup in
  processCount busy = 1
  /\ spinnerVisible busy = true
  /\ hide_calls busy = 0
  /\ processCount (removeProcessCount busy) = 0
  /\ spinnerVisible (removeProcessCount busy) = false
  /\ hide_calls (removeProcessCount busy) = 1.
Proof. repeat split. Qed.

End ActivityCounter.

(** ** The coordinator *)

Section Coordinator.

(** The effects a handler adds to the log, and what it does to the
    counter: the emit, or show() and then the emit with the counter
    raised by one, each followed by the writes to the form; or no emit
    at all. *)
Inductive HandlerShape (st st' : Main) : Prop :=
| PlainEmit (c : Command) (after : list Effect)
    (Hlog : effects st' = (effects st ++ [Emit c] ++ after)%list)
    (Hafter : forallb form_write after = true)
    (Hcount : processCount st' = processCount st)
    (Hvis : spinnerVisible st' = spinnerVisible st)
    (Hkind : user_command c = true -> stage_or_unstage c = true)
| CountedEmit (c : Command) (after : list Effect)
    (Hlog : effects st' = (effects st ++ [SpinnerShow; Emit c] ++ after)%list)
    (Hafter : forallb form_write after = true)
    (Hcount : processCount st' = processCount st + 1)
    (Hvis : spinnerVisible st' = true)
    (Hkind : stage_or_unstage c = false)
| NoEmit
    (Hlog : forall c, ~ In (Emit c) (skipn (List.length (effects st)) (effects st')))
    (Hpre : firstn (List.length (effects st)) (effects st') = effects st).

Lemma counted_emit_log (c : Command) (st : Main) :
  effects (emit c (addProcessCount st))
  = (effects st ++ [SpinnerShow; Emit c])%list.
Proof. cbn. now rewrite <- app_assoc. Qed.

Lemma handle_shape (a : UserAction) (st : Main) :
  HandlerShape st (handle a st).
Proof.
  destruct a; cbn [handle];
    try (eapply CountedEmit;
         [cbn [modal_hide set_val effects]; rewrite counted_emit_log;
          rewrite <- ?app_assoc; reflexivity
         | reflexivity ..]);
    try (eapply PlainEmit;
         [cbn [modal_hide set_val emit effects];
          rewrite <- ?app_assoc; reflexivity
         | reflexivity | reflexivity | reflexivity | cbn; congruence]).
  - (* double click on a branch row *)
    destruct (branch_type info =? "remote")%string;
      [| destruct (branch_type info =? "local")%string];
      try (eapply (CountedEmit _ _ _ []);
           [rewrite counted_emit_log; reflexivity | reflexivity ..]).
    apply NoEmit.
    + intros c. rewrite skipn_all. intros [].
    + apply firstn_all.
  - (* the delete button of the context menu *)
    destruct (branchType =? "local")%string;
      [| destruct (branchType =? "remote")%string;
         [| destruct (branchType =? "tag")%string]];
      try (eapply (CountedEmit _ _ _ []);
           [rewrite counted_emit_log; reflexivity | reflexivity ..]).
    apply NoEmit.
    + intros c. cbn [alert effects]. rewrite skipn_app, skipn_all, Nat.sub_diag.
      cbn. intros [H | []]. discriminate H.
    + cbn [alert effects]. rewrite firstn_app, firstn_all, Nat.sub_diag.
      cbn. apply app_nil_r.
Qed.

Lemma split_log (l before after : list Effect) (e : Effect) (suffix : list Effect) :
  (l ++ suffix = l ++ before ++ e :: after)%list ->
  suffix = (before ++ e :: after)%list.
Proof. apply app_inv_head. Qed.

Lemma no_emit_among_form_writes (c : Command) (l before after : list Effect) :
  forallb form_write l = true -> l <> (before ++ Emit c :: after)%list.
Proof.
  intros Hl Heq. subst l. rewrite forallb_app in Hl.
  apply andb_true_iff in Hl as [_ Hl]. cbn in Hl. discriminate Hl.
Qed.

(** C3, as the code has it.  Whenever a handler emits a command of the
    families stage, unstage, commit, push, fetch, pull, checkout, branch
    or delete: for every such command but stage and unstage the emit is
    preceded, in the same handler and with no other effect before it,
    by addProcessCount (show() is logged, and the handler leaves the
    counter one higher and the spinner shown); the stage and unstage
    handlers do nothing before their emit and leave the counter and the
    spinner as they were.  What a handler does after its emit - it
    clears the fields it has sent and hides its dialog - is left
    open. *)
Theorem emit_is_bracketed_except_stage_unstage :
  forall (a : UserAction) (st : Main) (c : Command) (before after : list Effect),
    effects (handle a st) = (effects st ++ before ++ Emit c :: after)%list ->
    user_command c = true ->
    if stage_or_unstage c
    then before = []
         /\ processCount (handle a st) = processCount st
         /\ spinnerVisible (handle a st) = spinnerVisible st
    else before = [SpinnerShow]
         /\ processCount (handle a st) = processCount st + 1
         /\ spinnerVisible (handle a st) = true.
Proof.
  intros a st c before after Hlog Huser.
  destruct (handle_shape a st) as [c0 after0 Hlog0 Hafter Hcount Hvis Hkind
                                  | c0 after0 Hlog0 Hafter Hcount Hvis Hkind
                                  | Hnone Hpre].
  - rewrite Hlog0 in Hlog. apply split_log in Hlog.
    destruct before as [| e1 before]; cbn [app] in Hlog.
    + injection Hlog as Hc Hafter0. subst c0 after0.
      rewrite (Hkind Huser). repeat split; assumption.
    + injection Hlog as _ Habs.
      now apply no_emit_among_form_writes in Habs.
  - rewrite Hlog0 in Hlog. apply split_log in Hlog.
    destruct before as [| e1 [| e2 before]]; cbn [app] in Hlog.
    + injection Hlog as Habs _. discriminate.
    + injection Hlog as He1 Hc Hafter0. subst e1 c0 after0.
      rewrite Hkind. repeat split; assumption.
    + injection Hlog as _ _ Habs.
      now apply no_emit_among_form_writes in Habs.
  - exfalso. apply (Hnone c). rewrite Hlog.
    rewrite skipn_app, skipn_all, Nat.sub_diag. cbn [skipn app].
    apply in_or_app. right. left. reflexivity.
Qed.

(** The commit button: show(), then the emit, then the two fields are
    cleared; the counter is at 1. *)
Lemma emit_is_bracketed_witness :
  let a := ClickCommitBtn "fix" "the parser" in
  effects (handle a startup)
    = (effects startup ++ [SpinnerShow]
       ++ Emit (CmdCommit "fix" "the parser")
          :: [FieldSet "summaryTxt" ""; FieldSet "messageTxt" ""])%list
  /\ user_command (CmdCommit "fix" "the parser") = true
  /\ processCount (handle a startup) = processCount startup + 1
  /\ spinnerVisible (handle a startup) = true.
Proof.
  intros a.
  assert (Hlog : effects (handle a startup)
                 = (effects startup ++ [SpinnerShow]
                    ++ Emit (CmdCommit "fix" "the parser")
                       :: [FieldSet "summaryTxt" ""; FieldSet "messageTxt" ""])%list)
    by reflexivity.
  split; [exact Hlog | split; [reflexivity |]].
  exact (proj2 (emit_is_bracketed_except_stage_unstage
                  a startup (CmdCommit "fix" "the parser") [SpinnerShow]
                  [FieldSet "summaryTxt" ""; FieldSet "messageTxt" ""]
                  Hlog eq_refl)).
Defined.

(** C3 as stated fails for stage and unstage: their buttons emit the
    command and leave the counter and the spinner alone. *)
Lemma stage_emits_without_start :
  let file := {| path := "src/main.rs"; status := 3 |} in
  effects (handle (ClickStageButton file) startup) = [Emit (CmdStage file)]
  /\ processCount (handle (ClickStageButton file) startup) = 0
  /\ effects (handle (ClickUnstageButton file) startup) = [Emit (CmdUnstage file)]
  /\ processCount (handle (ClickUnstageButton file) startup) = 0.
Proof. repeat split. Qed.

(** C7.  The [error] listener calls removeProcessCount and then alert:
    the alert is the last effect, after the hide() of the counter if there
    is one, and the counter it leaves is max(0, counter - 1).  When at
    most one command was in flight, the counter is 0 and the spinner
    hidden once the listener returns. *)
Theorem error_event_ends_before_alert :
  forall (payload : string) (st : Main),
    effects (listen_error payload st)
      = (effects st
         ++ (if processCount st <=? 1 then [SpinnerHide] else [])
         ++ [Alert payload])%list
    /\ processCount (listen_error payload st) = Z.max 0 (processCount st - 1)
    /\ spinnerVisible (listen_error payload st)
       = (1 <? processCount st) && spinnerVisible st
    /\ (processCount st <= 1 ->
        processCount (listen_error payload st) = 0
        /\ spinnerVisible (listen_error payload st) = false
        /\ effects (listen_error payload st)
           = (effects st ++ [SpinnerHide; Alert payload])%list).
Proof.
  intros payload st. unfold listen_error. cbn [alert effects processCount spinnerVisible].
  rewrite effects_remove, processCount_remove, spinnerVisible_remove.
  repeat split.
  - now rewrite <- app_assoc.
  - lia.
  - destruct (Z.ltb_spec 1 (processCount st)); [lia | reflexivity].
  - destruct (Z.leb_spec (processCount st) 1); [| lia].
    now rewrite <- app_assoc.
Qed.

(** A failed fetch: the command raises the counter to 1, the error event
    brings it back to 0 and hides the spinner before the alert. *)
Lemma error_event_witness :
  let st := handle ClickFetchBtn startup in
  processCount st <= 1
  /\ processCount (listen_error "fetch failed" st) = 0
  /\ spinnerVisible (listen_error "fetch failed" st) = false
  /\ effects (listen_error "fetch failed" st)
     = [SpinnerShow; Emit CmdFetch; SpinnerHide; Alert "fetch failed"].
Proof.
  intros st.
  assert (H : processCount st <= 1) by (cbn; lia).
  split; [exact H |].
  exact (proj2 (proj2 (proj2
           (error_event_ends_before_alert "fetch failed" st))) H).
Defined.

(** The handlers and the listeners keep the counter and the spinner
    coherent. *)
Lemma coherent_handle (a : UserAction) (st : Main) :
  coherent st -> coherent (handle a st).
Proof.
  intros H. pose proof (coherent_addProcessCount st H) as Hadd.
  destruct a; cbn [handle]; try exact H; try exact Hadd.
  - destruct (branch_type info =? "remote")%string;
      [exact Hadd | destruct (branch_type info =? "local")%string];
      [exact Hadd | exact H].
  - destruct (branchType =? "local")%string;
      [exact Hadd | destruct (branchType =? "remote")%string];
      [exact Hadd | destruct (branchType =? "tag")%string];
      [exact Hadd | exact H].
Qed.

Lemma coherent_listeners (payload : string) (st : Main) :
  coherent st ->
  coherent (listen_start_process st)
  /\ coherent (listen_end_process st)
  /\ coherent (listen_error payload st).
Proof.
  intros H. repeat split;
    try apply (coherent_addProcessCount st H);
    apply (coherent_removeProcessCount st H).
Qed.

End Coordinator.

(** ** Fitting file paths *)

Section TextFitter.

Local Open Scope string_scope.
Local Open Scope Z_scope.

Variable measure : string -> Z.
Variable w : Z.

(** The loop, one turn unfolded. *)
Lemma shrink_loop_turn (txt : string) :
  shrink_loop measure w txt
  = if w <=? measure txt then
      if (shorten txt =? ellipsis)%string then shorten txt
      else shrink_loop measure w (shorten txt)
    else txt.
Proof.
  funelim (shrink_loop measure w txt).
  - rewrite Heq. reflexivity.
  - rewrite Heq, e. reflexivity.
  - rewrite Heq, Hcontinue. reflexivity.
Qed.

Lemma shorten_marked (c : ascii) (rest : string) :
  shorten (ellipsis ++ String c rest) = ellipsis ++ rest.
Proof. reflexivity. Qed.

Lemma shorten_marker : shorten ellipsis = ellipsis.
Proof. reflexivity. Qed.

Lemma marked_is_marker (rest : string) :
  (ellipsis ++ rest =? ellipsis)%string = true -> rest = "".
Proof.
  intros H. apply String.eqb_eq in H. cbn in H.
  now injection H.
Qed.

Lemma fit_suffix_empty : fit_suffix measure w "" = ellipsis.
Proof.
  cbn [fit_suffix]. change (ellipsis ++ "") with ellipsis.
  destruct (measure ellipsis <? w); reflexivity.
Qed.

(** The loop of the code, started on the marked path. *)
Lemma shrink_loop_marked (rest : string) :
  shrink_loop measure w (ellipsis ++ rest) = fit_suffix measure w rest.
Proof.
  induction rest as [| c rest IH].
  - rewrite shrink_loop_turn, fit_suffix_empty.
    change (ellipsis ++ "") with ellipsis. rewrite shorten_marker.
    rewrite String.eqb_refl.
    destruct (w <=? measure ellipsis); reflexivity.
  - rewrite shrink_loop_turn. cbn [fit_suffix].
    rewrite shorten_marked, Z.leb_antisym.
    destruct (measure (ellipsis ++ String c rest) <? w); cbn [negb];
      [reflexivity |].
    destruct (ellipsis ++ rest =? ellipsis)%string eqn:Hstop; [| exact IH].
    apply marked_is_marker in Hstop. subst rest.
    now rewrite fit_suffix_empty.
Qed.

(** The loop of the specification, started on the marked path with a
    turn for every character of the path, or more. *)
Lemma spec_loop_marked (rest : string) :
  forall turns, (String.length rest <= turns)%nat ->
    spec_loop turns measure w (ellipsis ++ rest) = fit_suffix measure w rest.
Proof.
  induction rest as [| c rest IH]; intros turns Hturns.
  - rewrite fit_suffix_empty. change (ellipsis ++ "") with ellipsis.
    destruct turns; cbn [spec_loop];
      now rewrite String.eqb_refl, orb_true_r.
  - destruct turns as [| turns]; [cbn in Hturns; lia |].
    cbn [spec_loop fit_suffix].
    destruct (measure (ellipsis ++ String c rest) <? w); cbn [orb];
      [reflexivity |].
    change (ellipsis ++ String c rest =? ellipsis)%string with false.
    cbn iota.
    change (ellipsis ++ substring_from 4 (ellipsis ++ String c rest))
      with (ellipsis ++ rest).
    apply IH. cbn in Hturns. lia.
Qed.

Lemma fit_spec_suffix (s : string) :
  fit_spec s measure w
  = if measure s <? w then s else fit_suffix measure w s.
Proof.
  unfold fit_spec. destruct (measure s <? w); [reflexivity |].
  now apply spec_loop_marked.
Qed.

(** What the loops return is narrower than the container, or is the bare
    marker. *)
Lemma fit_suffix_result (rest : string) :
  measure (fit_suffix measure w rest) < w \/ fit_suffix measure w rest = ellipsis.
Proof.
  induction rest as [| c rest IH]; cbn [fit_suffix].
  - destruct (Z.ltb_spec (measure (ellipsis ++ "")) w); [left | right]; trivial.
  - destruct (Z.ltb_spec (measure (ellipsis ++ String c rest)) w);
      [left; assumption | exact IH].
Qed.

(** The code against the loop of the specification: they differ by the
    test on the container width. *)
Lemma fit_eq_guarded_spec (originalText : string) :
  fit originalText measure w
  = if 0 <? w then fit_spec originalText measure w else originalText.
Proof.
  set (s := originalText). rewrite fit_spec_suffix. unfold fit.
  destruct (Z.ltb_spec 0 w) as [Hw | Hw].
  - destruct (Z.ltb_spec 0 (measure s)) as [Hm | Hm]; cbn [andb].
    + rewrite Z.leb_antisym.
      destruct (Z.ltb_spec (measure s) w) as [Hfits | Hwide]; cbn [negb].
      * rewrite shrink_loop_turn.
        destruct (Z.leb_spec w (measure s)); [lia | reflexivity].
      * apply shrink_loop_marked.
    + destruct (Z.ltb_spec (measure s) w); [reflexivity | lia].
  - now rewrite andb_false_r.
Qed.

Lemma fit_keeps_text_without_width (originalText : string) :
  w <= 0 -> fit originalText measure w = originalText.
Proof.
  intros Hw. rewrite fit_eq_guarded_spec.
  destruct (Z.ltb_spec 0 w); [lia | reflexivity].
Qed.

(** C2, as the code has it.  [fit] is a total function, so the
    computation ends for every text, measure and width; with a container
    width of 0 or less it ends without entering the loop and the label
    shows its original text. *)
Theorem fit_nonpositive_width :
  forall originalText : string,
    w <= 0 -> fit originalText measure w = originalText.
Proof.
  intros s Hw. now apply fit_keeps_text_without_width.
Qed.

Lemma fit_spec_result (s : string) :
  measure (fit_spec s measure w) < w \/ fit_spec s measure w = ellipsis.
Proof.
  rewrite fit_spec_suffix.
  destruct (Z.ltb_spec (measure s) w); [left; assumption |].
  apply fit_suffix_result.
Qed.

Lemma fit_spec_narrow (r : string) :
  measure r < w -> fit_spec r measure w = r.
Proof.
  intros H. rewrite fit_spec_suffix.
  destruct (Z.ltb_spec (measure r) w); [reflexivity | lia].
Qed.

Lemma fit_spec_marker :
  measure "..." <= measure "...." ->
  measure "..." <= measure "....." ->
  measure "..." <= measure "......" ->
  fit_spec ellipsis measure w = ellipsis.
Proof.
  intros H4 H5 H6. rewrite fit_spec_suffix. unfold ellipsis.
  destruct (Z.ltb_spec (measure "...") w) as [| Hbig]; [reflexivity |].
  cbn.
  destruct (Z.ltb_spec (measure "......") w); [lia |].
  destruct (Z.ltb_spec (measure ".....") w); [lia |].
  destruct (Z.ltb_spec (measure "....") w); [lia |].
  destruct (measure "..." <? w); reflexivity.
Qed.

(** C5, as the code has it.  Fitting the fitted text again changes
    nothing, provided the marker followed by one, two or three more dots
    is measured at least as wide as the marker alone. *)
Theorem fit_idempotent :
  forall originalText : string,
    measure "..." <= measure "...." ->
    measure "..." <= measure "....." ->
    measure "..." <= measure "......" ->
    fit (fit originalText measure w) measure w = fit originalText measure w.
Proof.
  intros s H4 H5 H6.
  rewrite (fit_eq_guarded_spec s).
  destruct (Z.ltb_spec 0 w) as [Hw | Hw].
  - rewrite fit_eq_guarded_spec.
    destruct (Z.ltb_spec 0 w); [| lia].
    destruct (fit_spec_result s) as [Hnarrow | Hmarker].
    + now apply fit_spec_narrow.
    + rewrite Hmarker. now apply fit_spec_marker.
  - apply fit_keeps_text_without_width. lia.
Qed.

End TextFitter.

Section TextFitterAlgorithm.

Local Open Scope string_scope.
Local Open Scope Z_scope.

(** C4, as the code has it.  [truncateFilePathText] is the algorithm of
    the specification behind one more test: when the container is not
    wider than 0 the label is reset to its original text and nothing
    else happens.  Otherwise: the original text is kept when it is
    narrower than the container; else the marker is put in front and,
    while the text is not narrower than the container, its first 4
    characters (the marker and one character of the path) are cut and
    the marker put back, until only the marker is left.  Every label of
    the page is treated so, from its original text. *)
Theorem fit_is_guarded_spec_algorithm :
  forall (measure : string -> Z),
    (forall (originalText : string) (w : Z),
        fit originalText measure w
        = if 0 <? w then fit_spec originalText measure w else originalText)
    /\ (forall labels : list FilePathTxt,
          map textContent (truncateFilePathText measure labels)
          = map (fun txt =>
                   if 0 <? container_clientWidth txt
                   then fit_spec (data_original_txt txt) measure
                                 (container_clientWidth txt)
                   else data_original_txt txt) labels).
Proof.
  intros measure. split.
  - intros s w. apply fit_eq_guarded_spec.
  - intros labels. unfold truncateFilePathText. rewrite map_map.
    apply map_ext. intros txt. cbn [textContent].
    apply fit_eq_guarded_spec.
Qed.

End TextFitterAlgorithm.

Section TextFitterExamples.

Local Open Scope string_scope.
Local Open Scope Z_scope.

(** C2 as stated fails: a container of width 0 leaves the whole path,
    also for texts of 0 to 3 characters; the marker is never shown. *)
Lemma fit_zero_width_keeps_text :
  fit "src/ui/main.js" monospace8 0 = "src/ui/main.js"
  /\ fit "src/ui/main.js" monospace8 0 <> "..."
  /\ fit "" monospace8 0 <> "..."
  /\ fit "abc" monospace8 0 <> "...".
Proof. repeat split; vm_compute; discriminate. Qed.

Lemma fit_nonpositive_width_witness :
  0 <= 0 /\ fit "src/ui/main.js" monospace8 0 = "src/ui/main.js".
Proof.
  split; [lia |].
  apply (fit_nonpositive_width monospace8 0 "src/ui/main.js"). lia.
Defined.

(** C4 as stated fails: at width 0 the algorithm of the specification, in
    either reading, cuts the path down to the marker, and the code keeps
    the path. *)
Lemma fit_differs_from_spec_algorithm :
  fit "src/ui/main.js" monospace8 0 = "src/ui/main.js"
  /\ fit_spec "src/ui/main.js" monospace8 0 = "..."
  /\ fit_spec_four "src/ui/main.js" monospace8 0 = "..."
  /\ fit "src/ui/main.js" monospace8 0 <> fit_spec "src/ui/main.js" monospace8 0.
Proof. repeat split; vm_compute; discriminate. Qed.

(** Each turn of the code shortens the path by one character, not by
    four: in a container of 50 pixels the code keeps three characters of
    the path where cutting four at a time keeps none. *)
Remark fit_cuts_one_character_per_turn :
  fit "abcdefgh" monospace8 50 = "...fgh"
  /\ fit_spec "abcdefgh" monospace8 50 = "...fgh"
  /\ fit_spec_four "abcdefgh" monospace8 50 = "...".
Proof. repeat split. Qed.

(** C5 as stated fails for the measure [dented], which finds six dots
    narrower than three: the path "a" is fitted to the marker, and the
    marker is fitted to six dots. *)
Lemma fit_not_idempotent_for_dented_measure :
  fit "a" dented 5 = "..."
  /\ fit (fit "a" dented 5) dented 5 = "......"
  /\ fit (fit "a" dented 5) dented 5 <> fit "a" dented 5.
Proof. repeat split; vm_compute; discriminate. Qed.

Lemma fit_idempotent_witness :
  monospace8 "..." <= monospace8 "...."
  /\ monospace8 "..." <= monospace8 "....."
  /\ monospace8 "..." <= monospace8 "......"
  /\ fit (fit "src/ui/main.js" monospace8 50) monospace8 50
     = fit "src/ui/main.js" monospace8 50.
Proof.
  assert (H4 : monospace8 "..." <= monospace8 "....") by (vm_compute; discriminate).
  assert (H5 : monospace8 "..." <= monospace8 ".....") by (vm_compute; discriminate).
  assert (H6 : monospace8 "..." <= monospace8 "......") by (vm_compute; discriminate).
  split; [exact H4 | split; [exact H5 | split; [exact H6 |]]].
  exact (fit_idempotent monospace8 50 "src/ui/main.js" H4 H5 H6).
Defined.

End TextFitterExamples.

(** ** Strings: splitting and joining *)

Section Strings.

Local Open Scope string_scope.


Lemma has_char_cons (sep c : ascii) (s : string) :
  has_char sep (String c s) = ((c =? sep)%char || has_char sep s)%bool.
Proof.
  unfold has_char. cbn [all_chars].
  now rewrite negb_andb, negb_involutive.
Qed.

(** A string without the separator is one piece. *)
Lemma split_on_whole (sep : ascii) (s : string) :
  has_char sep s = false -> split_on sep s = [s].
Proof.
  induction s as [| c s IH]; [reflexivity |].
  rewrite has_char_cons. intros H. apply orb_false_elim in H as [Hc Hs].
  cbn [split_on]. now rewrite Hc, (IH Hs).
Qed.

(** The first separator ends the first piece. *)
Lemma split_on_first (sep : ascii) (piece rest : string) :
  has_char sep piece = false ->
  split_on sep (piece ++ String sep rest) = piece :: split_on sep rest.
Proof.
  induction piece as [| c piece IH]; intros H.
  - cbn. now rewrite Ascii.eqb_refl.
  - rewrite has_char_cons in H. apply orb_false_elim in H as [Hc Hs].
    cbn [append split_on]. now rewrite Hc, (IH Hs).
Qed.

(** Splitting undoes joining, when no piece holds the separator. *)
Lemma split_on_concat (sep : ascii) (pieces : list string) :
  pieces <> [] ->
  Forall (fun piece => has_char sep piece = false) pieces ->
  split_on sep (String.concat (String sep "") pieces) = pieces.
Proof.
  induction pieces as [| piece pieces IH]; intros Hne Hall; [congruence |].
  inversion Hall as [| ? ? Hpiece Hrest]; subst.
  destruct pieces as [| next pieces].
  - cbn [String.concat]. now apply split_on_whole.
  - cbn [String.concat]. cbn [append].
    rewrite split_on_first by assumption.
    f_equal. apply IH; [discriminate | assumption].
Qed.

Lemma all_chars_impl (p q : ascii -> bool) (s : string) :
  (forall c, p c = true -> q c = true) ->
  all_chars p s = true -> all_chars q s = true.
Proof.
  intros Hpq. induction s as [| c s IH]; [reflexivity |].
  cbn [all_chars]. intros H. apply andb_prop in H as [Hc Hs].
  now rewrite (Hpq c Hc), (IH Hs).
Qed.

Lemma lacks_of_all_chars (sep : ascii) (p : ascii -> bool) (s : string) :
  p sep = false -> all_chars p s = true -> has_char sep s = false.
Proof.
  intros Hsep Hall. unfold has_char.
  rewrite (all_chars_impl p (fun x => negb (x =? sep)%char)); [reflexivity | | exact Hall].
  intros c Hc. destruct (Ascii.eqb_spec c sep); [congruence | reflexivity].
Qed.

End Strings.

(** ** The selector built from the captured ids *)

Section Selector.

Local Open Scope string_scope.

Lemma identifier_inv (id : string) :
  is_identifier id = true ->
  (id =? "") = false /\ all_chars is_ident_char id = true.
Proof.
  unfold is_identifier. intros H. apply andb_prop in H as [Hne Hall].
  split; [now apply negb_true_iff | assumption].
Qed.

(** ["#" + ids.join(",#")] is the ids, each behind its ["#"], joined by
    commas. *)
Lemma selector_as_group (id : string) (ids : list string) :
  activeTreeIdsSelector (id :: ids)
  = String.concat "," (map (append "#") (id :: ids)).
Proof.
  unfold activeTreeIdsSelector. revert id.
  induction ids as [| next ids IH]; intros id; [reflexivity |].
  cbn [map String.concat] in *.
  rewrite <- IH. cbn [append]. reflexivity.
Qed.

Lemma hash_id_lacks_comma (id : string) :
  is_identifier id = true -> has_char "," ("#" ++ id) = false.
Proof.
  intros H. apply identifier_inv in H as [_ Hall].
  cbn [append]. rewrite has_char_cons. cbn [Ascii.eqb orb].
  now apply (lacks_of_all_chars "," is_ident_char).
Qed.

Lemma read_piece_hash_id (id : string) :
  is_identifier id = true -> read_piece ("#" ++ id) = PieceId id.
Proof.
  intros H. apply identifier_inv in H as [Hne Hall].
  cbn. now rewrite Hne, Hall.
Qed.

Lemma pieces_of_group (ids : list string) :
  identifiers ids ->
  map read_piece (map (append "#") ids) = map PieceId ids.
Proof.
  induction 1 as [| id ids Hid _ IH]; [reflexivity |].
  cbn [map]. now rewrite read_piece_hash_id, IH.
Qed.

Lemma piece_ids_map (ids : list string) : piece_ids (map PieceId ids) = ids.
Proof. induction ids as [| id ids IH]; cbn; [reflexivity | now rewrite IH]. Qed.

Lemma no_other_piece (ids : list string) :
  existsb piece_is_other (map PieceId ids) = false.
Proof. induction ids; cbn; trivial. Qed.

Lemma no_malformed_piece (ids : list string) :
  existsb piece_is_malformed (map PieceId ids) = false.
Proof. induction ids; cbn; trivial. Qed.

(** The selector built from a non-empty list of identifiers selects
    those ids again. *)
Lemma query_of_identifiers (ids : list string) :
  ids <> [] -> identifiers ids ->
  jQuery_query (activeTreeIdsSelector ids)
  = match ids with
    | [id] => QGetElementById id
    | _ => QSelectAll ids
    end.
Proof.
  intros Hne Hids. destruct ids as [| id ids]; [congruence |].
  unfold jQuery_query. rewrite selector_as_group.
  rewrite split_on_concat.
  - rewrite pieces_of_group by assumption.
    rewrite no_other_piece, no_malformed_piece, piece_ids_map.
    destruct ids; reflexivity.
  - discriminate.
  - apply Forall_map. eapply Forall_impl; [| exact Hids].
    intros a Ha. now apply hash_id_lacks_comma.
Qed.

(** With nothing captured the selector is a bare ["#"], which the engine
    rejects. *)
Lemma query_of_nothing : jQuery_query (activeTreeIdsSelector []) = QSyntaxError.
Proof. reflexivity. Qed.

End Selector.

(** ** The branch view *)

Section BranchView.

Local Open Scope string_scope.

(** Induction over items that reaches the items of nested lists. *)
Lemma Li_nested_ind (P : Li -> Prop) :
  (forall text caret id active items,
      Forall P items -> P (LiParent text caret id active items)) ->
  (forall childText behindCount aheadCount info,
      P (LiBranch childText behindCount aheadCount info)) ->
  forall li, P li.
Proof.
  intros Hparent Hbranch.
  fix IH 1. intros [text caret id active items | t b a i].
  - apply Hparent.
    induction items as [| x items IHitems];
      constructor; [apply IH | exact IHitems].
  - apply Hbranch.
Qed.

Lemma BranchTree_nested_ind (P : BranchTree -> Prop) :
  (forall text info children, Forall P children -> P (BNode text info children)) ->
  forall t, P t.
Proof.
  intros Hnode.
  fix IH 1. intros [text info children].
  apply Hnode.
  induction children as [| x children IHchildren];
    constructor; [apply IH | exact IHchildren].
Qed.

Lemma id_listed_In (ids : list string) (id : string) :
  id_listed ids id = true <-> In id ids.
Proof.
  unfold id_listed. rewrite existsb_exists. split.
  - intros [x [Hin Heq]]. apply String.eqb_eq in Heq. now subst.
  - intros Hin. exists id. split; [assumption | apply String.eqb_refl].
Qed.

Lemma flat_map_nil {A B : Type} (f : A -> list B) (l : list A) :
  Forall (fun x => f x = []) l -> flat_map f l = [].
Proof.
  induction 1 as [| x l Hx _ IH]; [reflexivity |].
  cbn. now rewrite Hx, IH.
Qed.

(** Expanded nested lists are among the rendered ones. *)
Lemma expanded_li_rendered (li : Li) :
  forall x, In x (expanded_ids_li li) -> In x (rendered_ids_li li).
Proof.
  induction li as [text caret id active items IH | ] using Li_nested_ind;
    intros x; [| intros []].
  cbn [expanded_ids_li rendered_ids_li]. rewrite in_app_iff.
  intros [Hhere | Hbelow].
  - destruct active; [| destruct Hhere].
    destruct Hhere as [-> | []]. now left.
  - right. apply in_flat_map in Hbelow as [y [Hy Hx]].
    apply in_flat_map. exists y. split; [assumption |].
    rewrite Forall_forall in IH. now apply IH.
Qed.

Lemma expanded_rendered (items : list Li) :
  forall x, In x (expanded_ids items) -> In x (rendered_ids items).
Proof.
  intros x Hx. apply in_flat_map in Hx as [y [Hy Hx]].
  apply in_flat_map. exists y. split; [assumption |].
  now apply expanded_li_rendered.
Qed.

(** *** What [buildBranchResultHTML] renders *)

(** Every nested list is created collapsed. *)
Lemma build_item_collapsed (t : BranchTree) :
  forall parentTxt, expanded_ids_li (build_item parentTxt t) = [].
Proof.
  induction t as [text info children IH] using BranchTree_nested_ind.
  intros parentTxt. destruct children as [| c cs]; [reflexivity |].
  cbn [build_item expanded_ids_li app].
  rewrite flat_map_concat_map, map_map, <- flat_map_concat_map.
  apply flat_map_nil.
  eapply Forall_impl; [| exact IH]. intros a Ha. apply Ha.
Qed.

Lemma build_collapsed (children : list BranchTree) (parentTxt : string) :
  expanded_ids (buildBranchResultHTML children parentTxt) = [].
Proof.
  unfold expanded_ids, buildBranchResultHTML.
  rewrite flat_map_concat_map, map_map, <- flat_map_concat_map.
  apply flat_map_nil, Forall_forall. intros t _. apply build_item_collapsed.
Qed.

Lemma path_identity_snoc (container : string) (segments : list string)
    (text : string) :
  path_identity container (segments ++ [text])
  = path_identity container segments ++ "-" ++ text.
Proof. unfold path_identity. now rewrite fold_left_app. Qed.

Lemma map_flat_map {A B C : Type} (f : B -> C) (g : A -> list B) (l : list A) :
  map f (flat_map g l) = flat_map (fun x => map f (g x)) l.
Proof.
  induction l as [| x l IH]; [reflexivity |].
  cbn. now rewrite map_app, IH.
Qed.

Lemma flat_map_ext_Forall {A B : Type} (f g : A -> list B) (l : list A) :
  Forall (fun x => f x = g x) l -> flat_map f l = flat_map g l.
Proof.
  induction 1 as [| x l Hx _ IH]; [reflexivity |].
  cbn. now rewrite Hx, IH.
Qed.

Lemma build_item_parent (parentTxt text : string) (info : BranchInfo)
    (children : list BranchTree) :
  children <> [] ->
  build_item parentTxt (BNode text info children)
  = LiParent text false (parentTxt ++ "-" ++ text) false
             (map (build_item (parentTxt ++ "-" ++ text)) children).
Proof. destruct children; [congruence | reflexivity]. Qed.

Lemma interior_paths_parent (prefix : list string) (text : string)
    (info : BranchInfo) (children : list BranchTree) :
  children <> [] ->
  interior_paths_node prefix (BNode text info children)
  = (prefix ++ [text])%list
      :: flat_map (interior_paths_node (prefix ++ [text])%list) children.
Proof. destruct children; [congruence | reflexivity]. Qed.

(** The id of a nested list is the path identity of its node. *)
Lemma build_item_ids (container : string) (t : BranchTree) :
  forall prefix,
    rendered_ids_li (build_item (path_identity container prefix) t)
    = map (path_identity container) (interior_paths_node prefix t).
Proof.
  induction t as [text info children IH] using BranchTree_nested_ind.
  intros prefix. destruct children as [| c cs]; [reflexivity |].
  rewrite build_item_parent, interior_paths_parent by discriminate.
  set (children := c :: cs) in *.
  cbn [rendered_ids_li map].
  rewrite <- path_identity_snoc. f_equal.
  rewrite map_flat_map, flat_map_concat_map, map_map, <- flat_map_concat_map.
  apply flat_map_ext_Forall.
  eapply Forall_impl; [| exact IH]. intros a Ha. apply Ha.
Qed.

Lemma build_ids (container : string) (children : list BranchTree) :
  rendered_ids (buildBranchResultHTML children container)
  = map (path_identity container) (interior_paths children).
Proof.
  unfold rendered_ids, buildBranchResultHTML, interior_paths.
  rewrite map_flat_map, flat_map_concat_map, map_map, <- flat_map_concat_map.
  apply flat_map_ext_Forall, Forall_forall. intros t _.
  apply (build_item_ids container t []).
Qed.

(** *** Expanding every selected nested list *)

Lemma in_flat_map_lift {A : Type} (E E' R : A -> list string)
    (L : string -> Prop) (l : list A) :
  Forall (fun y => forall x, In x (E' y) <-> In x (E y) \/ (L x /\ In x (R y))) l ->
  forall x, In x (flat_map E' l)
            <-> In x (flat_map E l) \/ (L x /\ In x (flat_map R l)).
Proof.
  induction 1 as [| y l Hy _ IH]; intros x; cbn [flat_map].
  - cbn. tauto.
  - rewrite !in_app_iff, (Hy x), (IH x). tauto.
Qed.

Lemma flat_map_map {A B C : Type} (f : B -> list C) (g : A -> B) (l : list A) :
  flat_map f (map g l) = flat_map (fun x => f (g x)) l.
Proof. now rewrite flat_map_concat_map, map_map, <- flat_map_concat_map. Qed.

Lemma activate_all_li_rendered (ids : list string) (li : Li) :
  rendered_ids_li (activate_all_li ids li) = rendered_ids_li li.
Proof.
  induction li as [text caret id active items IH | ] using Li_nested_ind;
    [| reflexivity].
  cbn [activate_all_li].
  destruct (id_listed ids id); cbn [rendered_ids_li]; f_equal;
    rewrite flat_map_map; apply flat_map_ext_Forall; exact IH.
Qed.

Lemma activate_all_rendered (ids : list string) (items : list Li) :
  rendered_ids (map (activate_all_li ids) items) = rendered_ids items.
Proof.
  unfold rendered_ids. rewrite flat_map_map.
  apply flat_map_ext_Forall, Forall_forall. intros li _.
  apply activate_all_li_rendered.
Qed.

(** A nested list is expanded afterwards when it was expanded before or
    its id is among the selected ones. *)
Lemma activate_all_li_expanded (ids : list string) (li : Li) :
  forall x,
    In x (expanded_ids_li (activate_all_li ids li))
    <-> In x (expanded_ids_li li)
        \/ (id_listed ids x = true /\ In x (rendered_ids_li li)).
Proof.
  induction li as [text caret id active items IH | ] using Li_nested_ind;
    intros x; [| cbn; tauto].
  assert (Hbelow :
            In x (flat_map expanded_ids_li (map (activate_all_li ids) items))
            <-> In x (flat_map expanded_ids_li items)
                \/ (id_listed ids x = true /\ In x (flat_map rendered_ids_li items))).
  { rewrite flat_map_map.
    apply (in_flat_map_lift expanded_ids_li
             (fun y => expanded_ids_li (activate_all_li ids y))
             rendered_ids_li (fun x => id_listed ids x = true)).
    exact IH. }
  cbn [activate_all_li].
  destruct (id_listed ids id) eqn:Hlisted;
    cbn [expanded_ids_li rendered_ids_li]; rewrite !in_app_iff, Hbelow;
    cbn [In]; destruct active; cbn [In];
    intuition (subst; try congruence; auto).
Qed.

Lemma activate_all_expanded (ids : list string) (items : list Li) :
  forall x,
    In x (expanded_ids (map (activate_all_li ids) items))
    <-> In x (expanded_ids items)
        \/ (id_listed ids x = true /\ In x (rendered_ids items)).
Proof.
  unfold expanded_ids, rendered_ids. rewrite flat_map_map.
  apply (in_flat_map_lift expanded_ids_li
           (fun y => expanded_ids_li (activate_all_li ids y))
           rendered_ids_li (fun x => id_listed ids x = true)).
  apply Forall_forall. intros li _. apply activate_all_li_expanded.
Qed.

(** *** Expanding the first element with a given id *)

Lemma activate_first_li_parent (target : string) (found : bool)
    (text : string) (caret : bool) (id : string) (active : bool)
    (items : list Li) :
  activate_first_li target found (LiParent text caret id active items)
  = if found then (true, LiParent text caret id active items)
    else if id =? target then (true, LiParent text true id true items)
    else let '(found', items') := activate_first_items target false items in
         (found', LiParent text caret id active items').
Proof.
  cbn [activate_first_li].
  destruct found; [reflexivity |].
  destruct (id =? target); [reflexivity |].
  lazymatch goal with
  | |- (let '(_, _) := ?go false items in _) = _ =>
      assert (Hgo : forall l f, go f l = activate_first_items target f l)
  end.
  { induction l as [| x l IHl]; intros f; [reflexivity |].
    cbn [activate_first_items].
    destruct (activate_first_li target f x) as [f1 x'].
    rewrite IHl. reflexivity. }
  now rewrite Hgo.
Qed.

Lemma id_listed_cons (id : string) (ids : list string) (x : string) :
  id_listed (id :: ids) x = ((x =? id) || id_listed ids x)%bool.
Proof. reflexivity. Qed.

Lemma id_listed_app (ids1 ids2 : list string) (x : string) :
  id_listed (ids1 ++ ids2) x = (id_listed ids1 x || id_listed ids2 x)%bool.
Proof. unfold id_listed. apply existsb_app. Qed.

Lemma first_spec_items (target : string) (items : list Li) :
  Forall (fun li => forall found,
            first_spec target found
              (expanded_ids_li li) (rendered_ids_li li)
              (expanded_ids_li (snd (activate_first_li target found li)))
              (rendered_ids_li (snd (activate_first_li target found li)))
              (fst (activate_first_li target found li))) items ->
  forall found,
    first_spec target found
      (expanded_ids items) (rendered_ids items)
      (expanded_ids (snd (activate_first_items target found items)))
      (rendered_ids (snd (activate_first_items target found items)))
      (fst (activate_first_items target found items)).
Proof.
  induction 1 as [| y l Hy _ IH]; intros found.
  - cbn. unfold first_spec. cbn. rewrite orb_false_r. intuition.
  - cbn [activate_first_items].
    specialize (Hy found).
    destruct (activate_first_li target found y) as [f1 y'].
    specialize (IH f1).
    destruct (activate_first_items target f1 l) as [f2 l'].
    cbn [fst snd] in *.
    destruct Hy as (Hf1 & Hr1 & He1), IH as (Hf2 & Hr2 & He2).
    unfold expanded_ids, rendered_ids in *. cbn [flat_map].
    split; [| split].
    + rewrite Hf2, Hf1, id_listed_app. now rewrite orb_assoc.
    + now rewrite Hr1, Hr2.
    + intros x. rewrite !in_app_iff, He1, He2.
      split.
      * intros [[H | (Hf & Hx & Ht)] | [H | (Hf & Hx & Ht)]]; auto.
        right. subst f1. apply orb_false_elim in Hf as [Hf _]. auto.
      * intros [[H | H] | (Hf & Hx & [Ht | Ht])]; auto.
        destruct (id_listed (rendered_ids_li y) target) eqn:Hy.
        -- apply id_listed_In in Hy. auto.
        -- right. right. subst f1 found. auto.
Qed.

Lemma first_spec_li (target : string) (li : Li) :
  forall found,
    first_spec target found
      (expanded_ids_li li) (rendered_ids_li li)
      (expanded_ids_li (snd (activate_first_li target found li)))
      (rendered_ids_li (snd (activate_first_li target found li)))
      (fst (activate_first_li target found li)).
Proof.
  induction li as [text caret id active items IH | ] using Li_nested_ind;
    intros found.
  2:{ cbn. unfold first_spec. cbn. rewrite orb_false_r. intuition. }
  rewrite activate_first_li_parent.
  destruct found.
  { unfold first_spec. cbn [fst snd orb]. intuition discriminate. }
  destruct (String.eqb_spec id target) as [-> | Hne].
  { unfold first_spec.
    cbn [fst snd expanded_ids_li rendered_ids_li app orb].
    rewrite id_listed_cons, String.eqb_refl.
    split; [reflexivity | split; [reflexivity |]].
    intros x. rewrite in_app_iff. cbn [In].
    destruct active; cbn [In]; intuition. }
  pose proof (first_spec_items target items IH false) as (Hf & Hr & He).
  destruct (activate_first_items target false items) as [f' items'].
  unfold first_spec, expanded_ids, rendered_ids in *.
  cbn [fst snd expanded_ids_li rendered_ids_li orb] in *.
  rewrite id_listed_cons.
  assert (Hneq : (target =? id) = false)
    by (apply String.eqb_neq; congruence).
  rewrite Hneq. cbn [orb].
  split; [assumption | split; [now rewrite Hr |]].
  intros x. rewrite !in_app_iff, He. cbn [In].
  intuition congruence.
Qed.

Lemma first_spec_list (target : string) (items : list Li) :
  forall found,
    first_spec target found
      (expanded_ids items) (rendered_ids items)
      (expanded_ids (snd (activate_first_items target found items)))
      (rendered_ids (snd (activate_first_items target found items)))
      (fst (activate_first_items target found items)).
Proof.
  apply first_spec_items, Forall_forall. intros li _. apply first_spec_li.
Qed.

Lemma first_spec_container (target : string) (found : bool) (id : string)
    (c : Container) :
  first_spec target (found || (id =? target))
    (expanded_ids (ct_items c)) (rendered_ids (ct_items c))
    (expanded_ids (ct_items (snd (activate_first_container target found id c))))
    (rendered_ids (ct_items (snd (activate_first_container target found id c))))
    (fst (activate_first_container target found id c)).
Proof.
  unfold activate_first_container.
  destruct found; cbn [orb].
  { unfold first_spec. cbn [fst snd orb]. intuition discriminate. }
  destruct (id =? target).
  { unfold first_spec. cbn [fst snd orb ct_items]. intuition discriminate. }
  pose proof (first_spec_list target (ct_items c) false) as H.
  destruct (activate_first_items target false (ct_items c)) as [f' items'].
  exact H.
Qed.

(** *** The whole branch view *)

Lemma rebuild_collapsed (branch_info_list : BranchInfoList) (doc : TreeView) :
  expanded_nodes (rebuild branch_info_list doc) = [].
Proof.
  unfold expanded_nodes, rebuild. cbn [localBranches remoteBranches tags ct_items with_items].
  now rewrite !build_collapsed.
Qed.

Lemma activate_all_nodes (ids : list string) (doc : TreeView) :
  rendered_nodes (activate_all ids doc) = rendered_nodes doc
  /\ forall x, In x (expanded_nodes (activate_all ids doc))
               <-> In x (expanded_nodes doc)
                   \/ (id_listed ids x = true /\ In x (rendered_nodes doc)).
Proof.
  unfold rendered_nodes, expanded_nodes, activate_all, activate_all_container.
  cbn [localBranches remoteBranches tags ct_items].
  split.
  - now rewrite !activate_all_rendered.
  - intros x. rewrite !in_app_iff, !activate_all_expanded. tauto.
Qed.

Lemma activate_first_nodes (target : string) (doc : TreeView) :
  rendered_nodes (activate_first target doc) = rendered_nodes doc
  /\ (forall x, In x (expanded_nodes (activate_first target doc)) ->
                In x (expanded_nodes doc)
                \/ (x = target /\ In target (rendered_nodes doc)))
  /\ (forall x, In x (expanded_nodes doc) ->
                In x (expanded_nodes (activate_first target doc)))
  /\ (~ In target ["localBranches"; "remoteBranches"; "tags"] ->
      In target (rendered_nodes doc) ->
      In target (expanded_nodes (activate_first target doc))).
Proof.
  unfold rendered_nodes, expanded_nodes, activate_first.
  pose proof (first_spec_container target false "localBranches" (localBranches doc))
    as (Hf1 & Hr1 & He1).
  destruct (activate_first_container target false "localBranches" (localBranches doc))
    as [f1 l].
  pose proof (first_spec_container target f1 "remoteBranches" (remoteBranches doc))
    as (Hf2 & Hr2 & He2).
  destruct (activate_first_container target f1 "remoteBranches" (remoteBranches doc))
    as [f2 r].
  pose proof (first_spec_container target f2 "tags" (tags doc))
    as (Hf3 & Hr3 & He3).
  destruct (activate_first_container target f2 "tags" (tags doc)) as [f3 t].
  cbn [fst snd localBranches remoteBranches tags] in *.
  split; [now rewrite Hr1, Hr2, Hr3 |].
  split; [| split].
  - intros x. rewrite !in_app_iff, He1, He2, He3. intuition.
  - intros x. rewrite !in_app_iff, He1, He2, He3. intuition.
  - intros Hnot Hin. cbn [In] in Hnot.
    assert (Hl : ("localBranches" =? target) = false)
      by (apply String.eqb_neq; intuition).
    assert (Hr : ("remoteBranches" =? target) = false)
      by (apply String.eqb_neq; intuition).
    assert (Ht : ("tags" =? target) = false)
      by (apply String.eqb_neq; intuition).
    rewrite Hl in *. rewrite Hr in *. rewrite Ht in *.
    cbn [orb] in *. rewrite !orb_false_r in *.
    rewrite !in_app_iff, He1, He2, He3.
    rewrite !in_app_iff in Hin.
    destruct (id_listed (rendered_ids (ct_items (localBranches doc))) target) eqn:Hll.
    { apply id_listed_In in Hll. auto. }
    destruct (id_listed (rendered_ids (ct_items (remoteBranches doc))) target) eqn:Hlr.
    { apply id_listed_In in Hlr. subst f1. auto 6. }
    subst f1 f2. cbn [orb] in *.
    destruct Hin as [Hin | [Hin | Hin]].
    + apply id_listed_In in Hin. congruence.
    + apply id_listed_In in Hin. congruence.
    + auto 8.
Qed.




(** *** Reconciliation *)



(** C8 fails on the code when a captured id holds a comma: the selector
    built from the id of [a,#localBranches-b] is a group of two other
    ids, and the update expands the list of [b], which was not captured,
    and leaves the captured list closed. *)
Lemma comma_in_id_expands_other_list :
  activeTreeIds comma_page = ["localBranches"; "localBranches-a,#localBranches-b"]
  /\ activeTreeIdsSelector (activeTreeIds comma_page)
     = "#localBranches,#localBranches-a,#localBranches-b"
  /\ exists after,
      updateBranchInfo comma_branches comma_page = Completed after
      /\ expanded_nodes after = ["localBranches-b"]
      /\ ~ incl (expanded_nodes after) (activeTreeIds comma_page).
Proof.
  split; [reflexivity | split; [reflexivity |]].
  eexists. split; [vm_compute; reflexivity |].
  split; [reflexivity |].
  intros Hincl. specialize (Hincl "localBranches-b" (or_introl eq_refl)).
  cbn in Hincl. destruct Hincl as [H | [H | []]]; discriminate H.
Qed.

(** C9 fails on the code.  When no element carries [active-tree] the
    selector is a bare ["#"]: the lists are rebuilt, all collapsed, and
    the selector engine throws; the [update_all] listener is left before
    it calls removeProcessCount. *)
Theorem nothing_captured_raises :
  forall (branch_info_list : BranchInfoList) (doc : TreeView) (st : Main),
    activeTreeIds doc = [] ->
    updateBranchInfo branch_info_list doc
      = Raised "Syntax error, unrecognized expression: #"
               (rebuild branch_info_list doc)
    /\ expanded_nodes (rebuild branch_info_list doc) = []
    /\ listen_update_all branch_info_list (st, doc)
       = Raised "Syntax error, unrecognized expression: #"
                (st, rebuild branch_info_list doc).
Proof.
  intros trees doc st Hnone.
  assert (Hrun : updateBranchInfo trees doc
                 = Raised "Syntax error, unrecognized expression: #"
                          (rebuild trees doc)).
  { unfold updateBranchInfo. rewrite Hnone, query_of_nothing. reflexivity. }
  split; [exact Hrun | split; [apply rebuild_collapsed |]].
  unfold listen_update_all. cbn [fst snd]. now rewrite Hrun.
Qed.

(** A fetch is in flight, nothing is expanded, and [update_all] arrives:
    the listener throws and the counter stays at 1 with the spinner
    shown. *)
Lemma nothing_captured_witness :
  activeTreeIds all_collapsed = []
  /\ exists page,
      listen_update_all usual_branches (handle ClickFetchBtn startup, all_collapsed)
        = Raised "Syntax error, unrecognized expression: #" page
      /\ processCount (fst page) = 1
      /\ spinnerVisible (fst page) = true.
Proof.
  split; [reflexivity |].
  destruct (nothing_captured_raises usual_branches all_collapsed
              (handle ClickFetchBtn startup) eq_refl) as (_ & _ & Hlisten).
  eexists. split; [exact Hlisten |]. split; reflexivity.
Defined.

End BranchView.

(** ** Path identities *)

Section PathIdentity.

Local Open Scope string_scope.






(** C10 fails on the code.  With the branches [fix-ui/x] and [fix/ui/y]
    the nodes [fix-ui] and [fix/ui] are different nodes of the tree of
    local branches and both nested lists get the id
    [localBranches-fix-ui]. *)
Theorem hyphen_in_segment_collides :
  interior_paths hyphen_branches = [["fix-ui"]; ["fix"]; ["fix"; "ui"]]
  /\ ["fix-ui"] <> ["fix"; "ui"]
  /\ path_identity "localBranches" ["fix-ui"]
     = path_identity "localBranches" ["fix"; "ui"]
  /\ rendered_ids (buildBranchResultHTML hyphen_branches "localBranches")
     = ["localBranches-fix-ui"; "localBranches-fix"; "localBranches-fix-ui"]
  /\ ~ NoDup (rendered_ids (buildBranchResultHTML hyphen_branches "localBranches")).
Proof.
  split; [reflexivity |]. split; [discriminate |].
  split; [reflexivity |]. split; [reflexivity |].
  intros Hnodup. cbn in Hnodup.
  inversion Hnodup as [| ? ? Hnotin _]. apply Hnotin. right. left. reflexivity.
Qed.

(** What the shared id does to the view: the nested list of [fix/ui] is
    the expanded one; after an update with the same branches the list of
    [fix-ui], which comes first in the document, is expanded and the one
    of [fix/ui] is closed. *)
Remark shared_id_moves_expansion :
  activeTreeIds hyphen_page = ["localBranches-fix-ui"]
  /\ exists after,
      updateBranchInfo (only_local hyphen_branches) hyphen_page = Completed after
      /\ ct_items (localBranches after)
         = [ LiParent "fix-ui" true "localBranches-fix-ui" true
               [LiBranch "x" None None (local_branch "fix-ui/x")];
             LiParent "fix" false "localBranches-fix" false
               [LiParent "ui" false "localBranches-fix-ui" false
                  [LiBranch "y" None None (local_branch "fix/ui/y")]] ].
Proof.
  split; [reflexivity |].
  eexists. split; [vm_compute; reflexivity | reflexivity].
Qed.

End PathIdentity.

(* ===================================================================== *)
(** * Part III. Further properties of the code                            *)
(* ===================================================================== *)

(** ** Fitting file paths, continued *)

Section TextFitterShape.

Local Open Scope string_scope.
Local Open Scope Z_scope.

Variable measure : string -> Z.
Variable w : Z.

Lemma fit_suffix_shape (rest : string) :
  exists k, (k <= String.length rest)%nat
            /\ fit_suffix measure w rest = ellipsis ++ substring_from k rest
            /\ (forall j, (j < k)%nat ->
                          w <= measure (ellipsis ++ substring_from j rest))
            /\ ((k < String.length rest)%nat ->
                measure (fit_suffix measure w rest) < w).
Proof.
  induction rest as [| c rest IH]; cbn [fit_suffix].
  - exists 0%nat. cbn [String.length substring_from].
    destruct (measure (ellipsis ++ "") <? w);
      (split; [lia | split; [reflexivity | split; intros; lia]]).
  - destruct (Z.ltb_spec (measure (ellipsis ++ String c rest)) w) as [Hfit | Hwide].
    + exists 0%nat. cbn [substring_from].
      split; [lia | split; [reflexivity | split; [intros; lia | intros _; exact Hfit]]].
    + destruct IH as (k & Hk & Heq & Hmin & Hfit).
      exists (S k). cbn [String.length substring_from].
      split; [lia | split; [exact Heq | split]].
      * intros [| j] Hj; cbn [substring_from]; [exact Hwide | apply Hmin; lia].
      * intros Hlt. apply Hfit. lia.
Qed.

(** X1.  What a label shows after [truncateFilePathText] is its original
    text, or the marker followed by an end of the original text: nothing
    is ever cut from the end of a path, nothing is inserted, and the text
    is at most the three characters of the marker longer than the
    original. *)
Theorem fit_keeps_an_end_of_the_path :
  forall originalText : string,
    (fit originalText measure w = originalText
     \/ exists k, (k <= String.length originalText)%nat
                  /\ fit originalText measure w
                     = ellipsis ++ substring_from k originalText)
    /\ (String.length (fit originalText measure w)
        <= String.length originalText + 3)%nat.
Proof.
  intros s. rewrite fit_eq_guarded_spec, fit_spec_suffix.
  destruct (0 <? w); [| split; [now left | lia]].
  destruct (measure s <? w); [split; [now left | lia] |].
  destruct (fit_suffix_shape s) as (k & Hk & Heq & _).
  split; [right; exists k; now split |].
  rewrite Heq. clear Heq. cbn [ellipsis append String.length].
  revert k Hk. induction s as [| c s IHs]; intros [| k] Hk;
    cbn [substring_from String.length] in *; try lia.
  specialize (IHs k). lia.
Qed.

(** X2.  When the original text is at least as wide as a container of
    positive width, the label shows the marker and the longest end of the
    path that fits: the text with any longer end is not narrower than the
    container, and what is shown is narrower than the container unless the
    whole path had to go. *)
Theorem fit_keeps_the_longest_fitting_end :
  forall originalText : string,
    0 < w -> w <= measure originalText ->
    exists k, (k <= String.length originalText)%nat
      /\ fit originalText measure w = ellipsis ++ substring_from k originalText
      /\ (forall j, (j < k)%nat ->
                    w <= measure (ellipsis ++ substring_from j originalText))
      /\ ((k < String.length originalText)%nat ->
          measure (fit originalText measure w) < w).
Proof.
  intros s Hw Hwide. rewrite fit_eq_guarded_spec, fit_spec_suffix.
  destruct (Z.ltb_spec 0 w); [| lia].
  destruct (Z.ltb_spec (measure s) w); [lia |].
  apply fit_suffix_shape.
Qed.

End TextFitterShape.

Section TextFitterPage.

Local Open Scope string_scope.
Local Open Scope Z_scope.

Lemma fit_keeps_the_longest_fitting_end_witness :
  0 < 50 /\ 50 <= monospace8 "abcdefgh"
  /\ exists k, (k <= String.length "abcdefgh")%nat
      /\ fit "abcdefgh" monospace8 50 = ellipsis ++ substring_from k "abcdefgh"
      /\ (forall j, (j < k)%nat ->
                    50 <= monospace8 (ellipsis ++ substring_from j "abcdefgh"))
      /\ ((k < String.length "abcdefgh")%nat ->
          monospace8 (fit "abcdefgh" monospace8 50) < 50).
Proof.
  assert (H1 : 0 < 50) by lia.
  assert (H2 : 50 <= monospace8 "abcdefgh") by (vm_compute; discriminate).
  split; [exact H1 | split; [exact H2 |]].
  exact (fit_keeps_the_longest_fitting_end monospace8 50 "abcdefgh" H1 H2).
Defined.

(** X3.  [truncateFilePathText] starts from [data-original-txt] every
    time: what it leaves depends on the attribute and on the width of
    the container only, not on the text shown before.  So running it again
    changes nothing, for every measure, and after the column has been
    dragged the labels are what they would be had they never been cut:
    a text cut in a narrow column grows back in a wide one. *)
Theorem truncateFilePathText_restarts_from_original :
  forall (measure : string -> Z) (labels : list FilePathTxt),
    truncateFilePathText measure (truncateFilePathText measure labels)
      = truncateFilePathText measure labels
    /\ (forall resize : Z -> Z,
          truncateFilePathText measure
            (map (resized resize) (truncateFilePathText measure labels))
          = truncateFilePathText measure (map (resized resize) labels))
    /\ map data_original_txt (truncateFilePathText measure labels)
       = map data_original_txt labels
    /\ map container_clientWidth (truncateFilePathText measure labels)
       = map container_clientWidth labels
    /\ (forall resize : Z -> Z,
          Forall (fun txt => measure (data_original_txt txt)
                             < resize (container_clientWidth txt)) labels ->
          map textContent
            (truncateFilePathText measure
               (map (resized resize) (truncateFilePathText measure labels)))
          = map data_original_txt labels).
Proof.
  intros measure labels. unfold truncateFilePathText.
  repeat split.
  - rewrite map_map. apply map_ext. intros txt. reflexivity.
  - intros resize. rewrite !map_map. apply map_ext. intros txt. reflexivity.
  - rewrite map_map. apply map_ext. intros txt. reflexivity.
  - rewrite map_map. apply map_ext. intros txt. reflexivity.
  - intros resize Hwide. rewrite !map_map.
    apply map_ext_Forall. eapply Forall_impl; [| exact Hwide].
    intros txt Hfits. cbv beta in Hfits.
    cbn [textContent data_original_txt container_clientWidth resized].
    rewrite fit_eq_guarded_spec, fit_spec_suffix.
    destruct (Z.ltb_spec (measure (data_original_txt txt))
                         (resize (container_clientWidth txt))); [| lia].
    destruct (0 <? resize (container_clientWidth txt)); reflexivity.
Qed.

(** Two labels cut to fit 50 pixels are whole again at 400. *)
Lemma truncateFilePathText_restarts_witness :
  let labels := [ {| data_original_txt := "src/ui/main.js";
                     textContent := "src/ui/main.js";
                     container_clientWidth := 50 |};
                  {| data_original_txt := "README.md";
                     textContent := "README.md";
                     container_clientWidth := 50 |} ] in
  Forall (fun txt => monospace8 (data_original_txt txt)
                     < (fun _ => 400) (container_clientWidth txt)) labels
  /\ map textContent (truncateFilePathText monospace8 labels)
     = ["....js"; "....md"]
  /\ map textContent
       (truncateFilePathText monospace8
          (map (resized (fun _ => 400)) (truncateFilePathText monospace8 labels)))
     = ["src/ui/main.js"; "README.md"].
Proof.
  intros labels.
  assert (H : Forall (fun txt => monospace8 (data_original_txt txt)
                                 < (fun _ => 400) (container_clientWidth txt)) labels)
    by (repeat constructor).
  split; [exact H | split; [reflexivity |]].
  exact (proj2 (proj2 (proj2 (proj2
           (truncateFilePathText_restarts_from_original monospace8 labels))))
           (fun _ => 400) H).
Defined.

End TextFitterPage.

(** ** The coordinator, continued *)

Section CoordinatorRuns.

Lemma coherent_step (st : Main) (s : Step) :
  coherent st -> coherent (step st s).
Proof.
  intros H. destruct s as [a | | | payload]; cbn [step].
  - now apply coherent_handle.
  - exact (proj1 (coherent_listeners EmptyString st H)).
  - exact (proj1 (proj2 (coherent_listeners EmptyString st H))).
  - exact (proj2 (proj2 (coherent_listeners payload st H))).
Qed.

(** X4.  Whatever the user does and whatever [start-process],
    [end-process] and [error] events arrive, in any order: the counter is
    never negative, and the spinner is shown exactly when the counter is
    positive. *)
Theorem coordinator_keeps_spinner_and_counter_together :
  forall steps : list Step,
    0 <= processCount (run_steps steps startup)
    /\ spinnerVisible (run_steps steps startup)
       = (0 <? processCount (run_steps steps startup)).
Proof.
  intros steps.
  enough (H : forall st, coherent st -> coherent (run_steps steps st))
    by exact (H startup coherent_startup).
  induction steps as [| s steps IH]; intros st Hst; [exact Hst |].
  apply IH. now apply coherent_step.
Qed.

Lemma handle_changes (a : UserAction) (st : Main) :
  (processCount (handle a st) = processCount st
   /\ spinnerVisible (handle a st) = spinnerVisible st
   /\ hide_calls (handle a st) = hide_calls st
   /\ show_calls (handle a st) = show_calls st)
  \/ (processCount (handle a st) = processCount st + 1
      /\ spinnerVisible (handle a st) = true
      /\ hide_calls (handle a st) = hide_calls st
      /\ show_calls (handle a st) = show_calls st + 1).
Proof.
  unfold hide_calls, show_calls.
  destruct a; cbn [handle];
    repeat match goal with
           | |- context [if (?x =? ?y)%string then _ else _] =>
               destruct (x =? y)%string
           end;
    cbn [modal_hide set_val emit alert addProcessCount effects processCount
         spinnerVisible];
    rewrite ?filter_app, ?length_app; cbn;
    first [left; repeat split; lia | right; repeat split; lia].
Qed.

(** X5.  No gesture of the user takes the spinner away: a handler leaves
    the counter as it is or raises it by one, never calls hide(), and
    leaves a shown spinner shown.  Only events of the backend lower the
    counter. *)
Theorem gestures_never_hide_the_spinner :
  forall (a : UserAction) (st : Main),
    processCount st <= processCount (handle a st) <= processCount st + 1
    /\ hide_calls (handle a st) = hide_calls st
    /\ (spinnerVisible st = true -> spinnerVisible (handle a st) = true)
    /\ (processCount (handle a st) = processCount st + 1 ->
        spinnerVisible (handle a st) = true).
Proof.
  intros a st.
  destruct (handle_changes a st) as [(Hc & Hv & Hh & _) | (Hc & Hv & Hh & _)].
  - split; [lia | split; [exact Hh | split]].
    + now rewrite Hv.
    + intros Hup. lia.
  - split; [lia | split; [exact Hh | split]]; intros _; exact Hv.
Qed.

Lemma gestures_never_hide_witness :
  spinnerVisible (handle ClickPullBtn startup) = true
  /\ spinnerVisible (handle (ClickStageButton {| path := "a.txt"; status := 3 |})
                            (handle ClickPullBtn startup)) = true.
Proof.
  split; [reflexivity |].
  exact (proj1 (proj2 (proj2
           (gestures_never_hide_the_spinner
              (ClickStageButton {| path := "a.txt"; status := 3 |})
              (handle ClickPullBtn startup)))) eq_refl).
Defined.

Lemma error_event_parts (payload : string) (st : Main) :
  effects (listen_error payload st)
    = (effects st
       ++ (if processCount st <=? 1 then [SpinnerHide] else [])
       ++ [Alert payload])%list
  /\ processCount (listen_error payload st) = Z.max 0 (processCount st - 1)
  /\ spinnerVisible (listen_error payload st)
     = (1 <? processCount st) && spinnerVisible st.
Proof.
  unfold listen_error. cbn [alert effects processCount spinnerVisible].
  rewrite effects_remove, processCount_remove, spinnerVisible_remove.
  repeat split. now rewrite <- app_assoc.
Qed.

(** X6.  A command that raised the counter and then fails is undone by
    its [error] event: counter and spinner are what they were before the
    gesture, and the message is shown after the spinner has been
    settled. *)
Theorem failed_command_restores_counter :
  forall (a : UserAction) (payload : string) (st : Main),
    coherent st ->
    processCount (handle a st) = processCount st + 1 ->
    processCount (listen_error payload (handle a st)) = processCount st
    /\ spinnerVisible (listen_error payload (handle a st)) = spinnerVisible st
    /\ exists before, effects (listen_error payload (handle a st))
                      = (before ++ [Alert payload])%list.
Proof.
  intros a payload st [Hpos Hvis] Hraised.
  destruct (error_event_parts payload (handle a st)) as (Hlog & Hcount & Hshown).
  split; [rewrite Hcount, Hraised; lia | split].
  - rewrite Hshown, Hraised, Hvis.
    destruct (handle_changes a st) as [(Hc & _) | (_ & Hv & _)]; [lia |].
    rewrite Hv.
    destruct (Z.ltb_spec 1 (processCount st + 1));
      destruct (Z.ltb_spec 0 (processCount st)); cbn; try reflexivity; lia.
  - eexists. rewrite Hlog. rewrite app_assoc. reflexivity.
Qed.

Lemma failed_command_restores_counter_witness :
  coherent startup
  /\ processCount (handle (ClickPushBtn "origin" false) startup) = processCount startup + 1
  /\ processCount (listen_error "rejected" (handle (ClickPushBtn "origin" false) startup)) = 0
  /\ spinnerVisible (listen_error "rejected" (handle (ClickPushBtn "origin" false) startup))
     = false.
Proof.
  assert (H1 : coherent startup) by apply coherent_startup.
  assert (H2 : processCount (handle (ClickPushBtn "origin" false) startup)
               = processCount startup + 1) by reflexivity.
  split; [exact H1 | split; [exact H2 |]].
  destruct (failed_command_restores_counter (ClickPushBtn "origin" false) "rejected"
              startup H1 H2) as (Hc & Hv & _).
  split; [exact Hc | exact Hv].
Defined.

(** X7.  Staging and unstaging do not raise the counter, so their
    [error] event lowers it all the same: with other work in flight a
    failed stage takes one from the counter, and with one command in
    flight it hides the spinner while that command is still running. *)
Theorem failed_stage_lowers_counter :
  forall (file : FileInfo) (payload : string) (st : Main),
    0 < processCount st ->
    processCount (listen_error payload (handle (ClickStageButton file) st))
      = processCount st - 1
    /\ processCount (listen_error payload (handle (ClickUnstageButton file) st))
       = processCount st - 1
    /\ (processCount st = 1 ->
        spinnerVisible (listen_error payload (handle (ClickStageButton file) st))
          = false
        /\ spinnerVisible (listen_error payload (handle (ClickUnstageButton file) st))
           = false).
Proof.
  intros file payload st Hbusy.
  destruct (error_event_parts payload (handle (ClickStageButton file) st))
    as (_ & Hc1 & Hv1).
  destruct (error_event_parts payload (handle (ClickUnstageButton file) st))
    as (_ & Hc2 & Hv2).
  cbn [handle emit processCount spinnerVisible] in *.
  split; [lia | split; [lia |]].
  intros Hone. rewrite Hv1, Hv2, Hone. split; reflexivity.
Qed.

Lemma failed_stage_lowers_counter_witness :
  let file := {| path := "a.txt"; status := 3 |} in
  let busy := handle ClickFetchBtn startup in
  0 < processCount busy
  /\ processCount (listen_error "locked" (handle (ClickStageButton file) busy)) = 0
  /\ spinnerVisible (listen_error "locked" (handle (ClickStageButton file) busy))
     = false.
Proof.
  intros file busy.
  assert (H : 0 < processCount busy) by (cbn; lia).
  destruct (failed_stage_lowers_counter file "locked" busy H) as (Hc & _ & Hv).
  split; [exact H | split; [exact Hc |]].
  exact (proj1 (Hv eq_refl)).
Defined.

End CoordinatorRuns.

(** ** The branch view, continued *)

Section BranchRendering.

Local Open Scope string_scope.

(** X8.  For a payload whose node texts hold no character that markup
    gives a meaning to, built into a list whose id holds none either:
    [buildBranchResultHTML] makes one nested list for every node with
    children, in document order; the id of each is the id of the list it
    is built into followed by a hyphen and the text of every node on the
    way down; and every one of them is created closed. *)
Theorem build_makes_one_closed_list_per_prefix :
  forall (children : list BranchTree) (container : string),
    markup_free container = true ->
    forallb markup_free_tree children = true ->
    rendered_ids (buildBranchResultHTML children container)
      = map (path_identity container) (interior_paths children)
    /\ List.length (rendered_ids (buildBranchResultHTML children container))
       = List.length (interior_paths children)
    /\ expanded_ids (buildBranchResultHTML children container) = [].
Proof.
  intros children container _ _.
  split; [apply build_ids | split; [| apply build_collapsed]].
  now rewrite build_ids, length_map.
Qed.

(** The usual branches, built into the local list: one nested list for
    [feature], one for [release] and one for [release/v1]. *)
Lemma build_makes_one_closed_list_witness :
  let children := children_of (local_branch_info_tree usual_branches) in
  markup_free "localBranches" = true
  /\ forallb markup_free_tree children = true
  /\ rendered_ids (buildBranchResultHTML children "localBranches")
     = [ "localBranches-feature"; "localBranches-release";
         "localBranches-release-v1" ].
Proof.
  intros children.
  assert (H1 : markup_free "localBranches" = true) by reflexivity.
  assert (H2 : forallb markup_free_tree children = true) by reflexivity.
  split; [exact H1 | split; [exact H2 |]].
  rewrite (proj1 (build_makes_one_closed_list_per_prefix
                    children "localBranches" H1 H2)).
  reflexivity.
Defined.











(** With plain ids [updateBranchInfo] returns, or throws on the bare
    ["#"] when nothing was captured; either way it leaves a page. *)
Lemma update_leaves_a_page (branch_info_list : BranchInfoList) (doc : TreeView) :
  identifiers (activeTreeIds doc) ->
  exists after,
    page_after (updateBranchInfo branch_info_list doc) = Some after
    /\ (after = rebuild branch_info_list doc
        \/ (exists target,
              after = activate_first target (rebuild branch_info_list doc))
        \/ (exists ids,
              after = activate_all ids (rebuild branch_info_list doc))).
Proof.
  intros Hids. unfold updateBranchInfo.
  destruct (activeTreeIds doc) as [| id ids] eqn:Hcaptured.
  - rewrite query_of_nothing. eexists. split; [reflexivity | now left].
  - rewrite (query_of_identifiers (id :: ids)) by (congruence || assumption).
    destruct ids as [| id2 ids]; eexists; (split; [reflexivity |]); right.
    + left. now exists id.
    + right. eexists. reflexivity.
Qed.



End BranchRendering.

(** ** The lists of changed files *)

Section ChangedFiles.

Local Open Scope string_scope.

Variable measure : string -> Z.
Variable layout : string -> Z.

Lemma selected_count_app (rows1 rows2 : list FileRow) :
  selected_count (rows1 ++ rows2)
  = (selected_count rows1 + selected_count rows2)%nat.
Proof. unfold selected_count. now rewrite filter_app, length_app. Qed.

Lemma selected_count_none (rows : list FileRow) :
  Forall (fun r => row_selected r = false) rows -> selected_count rows = 0%nat.
Proof.
  unfold selected_count.
  induction 1 as [| r rows Hr _ IH]; [reflexivity |].
  cbn [filter]. now rewrite Hr.
Qed.

Lemma unselect_row_unselected (r : FileRow) :
  row_selected (unselect_row r) = false.
Proof. unfold unselect_row. destruct (row_selected r) eqn:H; [reflexivity | exact H]. Qed.

Lemma truncate_row_selected (r : FileRow) :
  row_selected (truncate_row measure r) = row_selected r.
Proof. reflexivity. Qed.

Lemma selected_count_truncate (rows : list FileRow) :
  selected_count (map (truncate_row measure) rows) = selected_count rows.
Proof.
  unfold selected_count.
  induction rows as [| r rows IH]; [reflexivity |].
  cbn [map filter]. rewrite truncate_row_selected.
  destruct (row_selected r); cbn [List.length]; now rewrite IH.
Qed.

Lemma selected_count_unselect (rows : list FileRow) :
  selected_count (map unselect_row rows) = 0%nat.
Proof.
  apply selected_count_none, Forall_forall. intros r Hr.
  apply in_map_iff in Hr as [r0 [<- _]]. apply unselect_row_unselected.
Qed.

Lemma selected_count_fresh (width : Z) (button : option RowButton)
    (changeType sha : string) (files : list FileInfo) :
  selected_count
    (map (fun file => addFileChangeRow width button file changeType sha) files)
  = 0%nat.
Proof.
  apply selected_count_none, Forall_forall. intros r Hr.
  apply in_map_iff in Hr as [f [<- _]]. reflexivity.
Qed.

Lemma row_fits_list_unselect (l : ChangeList) (r : FileRow) :
  row_fits_list l r -> row_fits_list l (unselect_row r).
Proof.
  unfold unselect_row. destruct (row_selected r) eqn:Hsel; [| trivial].
  intros (Hicon & _ & Hlist). now repeat split.
Qed.

Lemma row_fits_list_select (l : ChangeList) (r : FileRow) :
  row_fits_list l r -> row_fits_list l (selectRow r).
Proof. intros (Hicon & _ & Hlist). now repeat split. Qed.

Lemma row_fits_list_truncate (l : ChangeList) (r : FileRow) :
  row_fits_list l r -> row_fits_list l (truncate_row measure r).
Proof. intros (Hicon & Hclass & Hlist). now repeat split. Qed.


Lemma update_clears_selection (payload : FilesChangedInfo) (v : ChangesView) :
  selected_count (all_rows (updateFilesChangedInfo measure layout payload v))
  = 0%nat.
Proof.
  unfold updateFilesChangedInfo, truncate_page, unselectAllRows, all_rows.
  cbn [unstagedChanges stagedChanges commitChanges].
  rewrite !selected_count_app, !selected_count_truncate.
  now rewrite !selected_count_fresh, selected_count_unselect.
Qed.


(** *** The selection *)

Lemma nth_error_at_index_same {A : Type} (f : A -> A) (i : nat) (l : list A) :
  nth_error (at_index f i l) i = option_map f (nth_error l i).
Proof.
  revert i. induction l as [| x l IH]; intros [| i]; cbn; trivial.
Qed.

Lemma nth_error_at_index_other {A : Type} (f : A -> A) (i j : nat) (l : list A) :
  i <> j -> nth_error (at_index f i l) j = nth_error l j.
Proof.
  revert i j. induction l as [| x l IH]; intros [| i] [| j] Hne; cbn; trivial.
  - congruence.
  - apply IH. congruence.
Qed.

Lemma selected_count_at_index (i : nat) (rows : list FileRow) :
  Forall (fun r => row_selected r = false) rows ->
  selected_count (at_index selectRow i rows)
  = if (i <? List.length rows)%nat then 1%nat else 0%nat.
Proof.
  intros Hnone. revert i.
  induction Hnone as [| r rows Hr Hrows IH]; intros i;
    [destruct i; reflexivity |].
  destruct i as [| i]; cbn [at_index].
  - unfold selected_count. cbn [filter selectRow row_selected List.length].
    fold (selected_count rows). now rewrite (selected_count_none rows Hrows).
  - unfold selected_count. cbn [filter]. rewrite Hr.
    fold (selected_count (at_index selectRow i rows)). rewrite IH.
    reflexivity.
Qed.

Lemma Forall_at_index {A : Type} (P : A -> Prop) (f : A -> A) (i : nat)
    (l : list A) :
  (forall x, P x -> P (f x)) -> Forall P l -> Forall P (at_index f i l).
Proof.
  intros Hf Hl. revert i.
  induction Hl as [| x l Hx Hl IH]; intros [| i]; cbn [at_index];
    try constructor; auto.
Qed.

Lemma unselected_rows (rows : list FileRow) :
  Forall (fun r => row_selected r = false) (map unselect_row rows).
Proof.
  apply Forall_forall. intros r Hr.
  apply in_map_iff in Hr as [r0 [<- _]]. apply unselect_row_unselected.
Qed.

Lemma click_row_tidy (l : ChangeList) (i : nat) (app : ChangesView * Main) :
  tidy (fst app) -> tidy (fst (click_row l i app)).
Proof.
  destruct app as [v st]. intros (Hu & Hs & Hc & Hsel).
  unfold click_row. destruct (nth_error (rows_of l v) i) as [r |]; cbn [fst].
  2:{ now repeat split. }
  assert (Hfit : forall l0 rows,
             Forall (row_fits_list l0) rows ->
             Forall (row_fits_list l0) (map unselect_row rows)).
  { intros l0 rows H. apply Forall_forall. intros x Hx.
    apply in_map_iff in Hx as [x0 [<- Hx0]].
    apply row_fits_list_unselect. rewrite Forall_forall in H. now apply H. }
  unfold tidy, all_rows.
  destruct l;
    cbn [with_rows rows_of unselectAllRows hide_contextMenu
         unstagedChanges stagedChanges commitChanges];
    (split; [| split; [| split]]);
    try (apply Forall_at_index; [apply row_fits_list_select |]);
    try now apply Hfit.
  all: rewrite !selected_count_app, ?selected_count_unselect,
         selected_count_at_index by apply unselected_rows.
  all: destruct (_ <? _)%nat; lia.
Qed.

Lemma changes_step_tidy (app : ChangesView * Main) (s : ChangesStep) :
  tidy (fst app) -> tidy (fst (changes_step measure layout app s)).
Proof.
  intros Htidy. pose proof Htidy as (Hu & Hs & Hc & Hsel).
  assert (Htrunc : forall l0 rows,
             Forall (row_fits_list l0) rows ->
             Forall (row_fits_list l0) (map (truncate_row measure) rows)).
  { intros l0 rows H. apply Forall_forall. intros x Hx.
    apply in_map_iff in Hx as [x0 [<- Hx0]].
    apply row_fits_list_truncate. rewrite Forall_forall in H. now apply H. }
  assert (Hfresh : forall l0 w b t c files,
             (forall f, row_fits_list l0 (addFileChangeRow w b f t c)) ->
             Forall (row_fits_list l0)
               (map (truncate_row measure)
                    (map (fun f => addFileChangeRow w b f t c) files))).
  { intros l0 w b t c files H. apply Htrunc, Forall_forall. intros x Hx.
    apply in_map_iff in Hx as [f [<- _]]. apply H. }
  destruct s as [payload | payload | payload | l i | l i | | | b t |];
    cbn [changes_step fst].
  - split; [| split; [| split]].
    + apply Hfresh. intros f. now repeat split.
    + apply Hfresh. intros f. now repeat split.
    + unfold updateFilesChangedInfo, truncate_page, unselectAllRows.
      cbn [commitChanges].
      apply Htrunc, Forall_forall. intros x Hx.
      apply in_map_iff in Hx as [x0 [<- Hx0]].
      apply row_fits_list_unselect. rewrite Forall_forall in Hc. now apply Hc.
    + rewrite update_clears_selection. lia.
  - unfold tidy, showCommitInfo, truncate_page, all_rows in *.
    cbn [unstagedChanges stagedChanges commitChanges] in *.
    split; [now apply Htrunc |]. split; [now apply Htrunc |].
    split; [apply Hfresh; intros f; now repeat split |].
    rewrite !selected_count_app, !selected_count_truncate in *.
    rewrite selected_count_fresh. lia.
  - unfold showFileDiff.
    destruct (change_type payload =? "commit"); [exact Htidy |].
    destruct ((change_type payload =? "unstaged")
              || (change_type payload =? "staged"))%bool; exact Htidy.
  - now apply click_row_tidy.
  - destruct app as [v st]. unfold click_row_button.
    destruct (nth_error (rows_of l v) i) as [r |]; [| exact Htidy].
    destruct (row_button r) as [[|] |]; exact Htidy.
  - unfold tidy, truncate_page, all_rows in *.
    cbn [unstagedChanges stagedChanges commitChanges] in *.
    repeat split; try now apply Htrunc.
    rewrite !selected_count_app, !selected_count_truncate in *. exact Hsel.
  - exact Htidy.
  - exact Htidy.
  - destruct app as [v st]. unfold click_deleteBtn.
    destruct (contextMenu_shown v); [| exact Htidy].
    destruct (contextMenu_branch v) as [[s0 t0] |]; exact Htidy.
Qed.

Lemma run_changes_tidy (steps : list ChangesStep) :
  forall app, tidy (fst app) -> tidy (fst (run_changes measure layout steps app)).
Proof.
  induction steps as [| s steps IH]; intros app Happ; [exact Happ |].
  apply IH. now apply changes_step_tidy.
Qed.


End ChangedFiles.

Section RowsAndTables.

Local Open Scope string_scope.

Variable measure : string -> Z.
Variable layout : string -> Z.

Lemma nth_error_unselected (rows : list FileRow) (j : nat) (r : FileRow) :
  nth_error (map unselect_row rows) j = Some r -> row_selected r = false.
Proof.
  rewrite nth_error_map.
  destruct (nth_error rows j) as [r0 |]; cbn; [| discriminate].
  intros H. injection H as <-. apply unselect_row_unselected.
Qed.

(** X14.  A click on a row of any of the three lists leaves this row
    selected and no other row of the page; it asks the backend for the
    diff of the file of the row, with the change type of its list and the
    commit of its list, without raising the counter; it hides the context
    menu; and it empties the diff table of the working tree - also when
    the row is a file of a commit - and never the diff table of the
    commit. *)
Theorem click_selects_one_row_and_asks_for_its_diff :
  forall (l : ChangeList) (i : nat) (v : ChangesView) (st : Main) (r : FileRow),
    nth_error (rows_of l v) i = Some r ->
    let app' := click_row l i (v, st) in
    (forall l' j r', nth_error (rows_of l' (fst app')) j = Some r' ->
                     row_selected r' = true -> l' = l /\ j = i)
    /\ (exists r', nth_error (rows_of l (fst app')) i = Some r'
                   /\ row_selected r' = true /\ row_hoverable r' = false
                   /\ row_file r' = row_file r)
    /\ effects (snd app')
       = (effects st
          ++ [Emit (CmdFileDiff (path (row_file r)) (row_changeType r) (row_sha r))])%list
    /\ processCount (snd app') = processCount st
    /\ contextMenu_shown (fst app') = false
    /\ fileDiffTable (fst app') = []
    /\ commitFileDiffTable (fst app') = commitFileDiffTable v.
Proof.
  intros l i v st r Hrow app'. subst app'. unfold click_row. rewrite Hrow.
  cbn [fst snd].
  split; [| split; [| now repeat split; destruct l]].
  - intros l' j r' Hr' Hsel.
    destruct l, l';
      cbn [with_rows rows_of unselectAllRows hide_contextMenu
           unstagedChanges stagedChanges commitChanges] in Hr';
      try (apply nth_error_unselected in Hr'; congruence);
      (split; [reflexivity |]);
      (destruct (Nat.eq_dec i j) as [Heq | Hne]; [now subst |]);
      rewrite nth_error_at_index_other in Hr' by assumption;
      apply nth_error_unselected in Hr'; congruence.
  - assert (Hi : forall rows, nth_error rows i = Some r ->
                 exists r', nth_error (at_index selectRow i (map unselect_row rows)) i
                            = Some r'
                            /\ row_selected r' = true /\ row_hoverable r' = false
                            /\ row_file r' = row_file r).
    { intros rows Hr. rewrite nth_error_at_index_same, nth_error_map, Hr.
      cbn [option_map]. eexists. split; [reflexivity |].
      unfold unselect_row. destruct (row_selected r); now repeat split. }
    destruct l;
      cbn [with_rows rows_of unselectAllRows hide_contextMenu
           unstagedChanges stagedChanges commitChanges] in *;
      now apply Hi.
Qed.

(** Two files are listed; the second is clicked, then the first. *)
Lemma click_selects_one_row_witness :
  let payload := {| files_changed := 2;
                    unstaged_files := [ {| path := "a.txt"; status := 3 |};
                                        {| path := "b.txt"; status := 7 |} ];
                    staged_files := [] |} in
  let v := fst (click_row UnstagedList 1
                  (updateFilesChangedInfo monospace8 (fun _ => 400) payload
                     empty_changes, startup)) in
  nth_error (rows_of UnstagedList v) 0
    = Some (addFileChangeRow 400 (Some StageButton)
              {| path := "a.txt"; status := 3 |} "unstaged" "")
  /\ map row_selected (unstagedChanges (fst (click_row UnstagedList 0 (v, startup))))
     = [true; false]
  /\ effects (snd (click_row UnstagedList 0 (v, startup)))
     = [Emit (CmdFileDiff "a.txt" "unstaged" "")].
Proof.
  intros payload v.
  assert (H : nth_error (rows_of UnstagedList v) 0
              = Some (addFileChangeRow 400 (Some StageButton)
                        {| path := "a.txt"; status := 3 |} "unstaged" ""))
    by reflexivity.
  split; [exact H | split; [reflexivity |]].
  exact (proj1 (proj2 (proj2
           (click_selects_one_row_and_asks_for_its_diff
              UnstagedList 0 v startup _ H)))).
Defined.

(** X16.  The change type a row sends with its request is one
    [showFileDiff] knows, whatever has arrived and been clicked before:
    when lines come back under the change type of the request, nothing
    is thrown, and what is written is the table of the tab the row is on
    - the table of the other tab and the rows of the lists stay as they
    are. *)
Theorem diff_of_a_row_lands_in_its_tab :
  forall (steps : list ChangesStep) (l : ChangeList) (i : nat) (r : FileRow)
         (lines : list FileLine),
    let v := fst (run_changes measure layout steps (empty_changes, startup)) in
    nth_error (rows_of l v) i = Some r ->
    exists v',
      showFileDiff {| change_type := row_changeType r; file_lines := lines |} v
        = Completed v'
      /\ other_table_of l v' = other_table_of l v
      /\ all_rows v' = all_rows v
      /\ (row_changeType r = "commit" <-> l = CommitList).
Proof.
  intros steps l i r lines v Hrow.
  destruct (run_changes_tidy measure layout steps (empty_changes, startup))
    as (Hu & Hs & Hc & _).
  { repeat split; try constructor. cbn. lia. }
  fold v in Hu, Hs, Hc.
  apply nth_error_In in Hrow.
  unfold showFileDiff. cbn [change_type file_lines].
  destruct l; cbn [rows_of] in Hrow.
  - rewrite Forall_forall in Hu. destruct (Hu r Hrow) as (_ & _ & _ & -> & _).
    eexists. split; [reflexivity |]. repeat split; discriminate.
  - rewrite Forall_forall in Hs. destruct (Hs r Hrow) as (_ & _ & _ & -> & _).
    eexists. split; [reflexivity |]. repeat split; discriminate.
  - rewrite Forall_forall in Hc. destruct (Hc r Hrow) as (_ & _ & _ & ->).
    eexists. split; [reflexivity |]. now repeat split.
Qed.

Lemma delete_commands_handle_other (a : UserAction) (st : Main) :
  (forall s t, a <> ClickDeleteBtn s t) ->
  delete_commands (handle a st) = delete_commands st.
Proof.
  intros Hother. unfold delete_commands.
  destruct a; cbn [handle modal_hide set_val emit addProcessCount effects];
    try (rewrite !filter_app, !length_app; cbn; lia).
  - destruct (branch_type info =? "remote"); [| destruct (branch_type info =? "local")];
      cbn [handle emit addProcessCount effects];
      try (rewrite !filter_app, !length_app; cbn; lia); reflexivity.
  - exfalso. now apply (Hother branchShorthand branchType).
Qed.

Lemma delete_commands_delete (s t : string) (st : Main) :
  (delete_commands (handle (ClickDeleteBtn s t) st) <= delete_commands st + 1)%nat.
Proof.
  unfold delete_commands. cbn [handle].
  destruct (t =? "local"); [| destruct (t =? "remote"); [| destruct (t =? "tag")]];
    cbn [emit alert addProcessCount effects];
    rewrite !filter_app, !length_app; cbn; lia.
Qed.

(** X17.  A branch or tag is deleted only from the context menu and at
    most once for each time the menu was opened: the Delete button can be
    clicked while the menu is shown, and its click closes the menu.  No
    other step of the tabs and the menu emits a delete command. *)
Theorem one_delete_per_menu_opening :
  forall steps : list ChangesStep,
    (delete_commands (snd (run_changes measure layout steps (empty_changes, startup)))
     <= menu_openings steps)%nat.
Proof.
  intros steps.
  enough (H : forall app,
             (delete_commands (snd (run_changes measure layout steps app))
              + (if contextMenu_shown (fst (run_changes measure layout steps app))
                 then 1 else 0)
              <= delete_commands (snd app)
                 + (if contextMenu_shown (fst app) then 1 else 0)
                 + menu_openings steps)%nat).
  { specialize (H (empty_changes, startup)). cbn in H.
    destruct (contextMenu_shown _); lia. }
  induction steps as [| s steps IH]; intros app.
  - cbn. lia.
  - cbn [run_changes fold_left].
    fold (run_changes measure layout steps (changes_step measure layout app s)).
    specialize (IH (changes_step measure layout app s)).
    enough (Hstep : (delete_commands (snd (changes_step measure layout app s))
                     + (if contextMenu_shown (fst (changes_step measure layout app s))
                        then 1 else 0)
                     <= delete_commands (snd app)
                        + (if contextMenu_shown (fst app) then 1 else 0)
                        + (if is_menu_opening s then 1 else 0))%nat).
    { unfold menu_openings in *. cbn [filter].
      destruct (is_menu_opening s); cbn [List.length]; lia. }
    clear IH. destruct app as [v st].
    destruct s as [payload | payload | payload | l i | l i | | | b t |];
      cbn [changes_step fst snd is_menu_opening].
    + unfold updateFilesChangedInfo, truncate_page, unselectAllRows.
      cbn [contextMenu_shown]. lia.
    + unfold showCommitInfo, truncate_page. cbn [contextMenu_shown]. lia.
    + unfold showFileDiff.
      destruct (change_type payload =? "commit");
        [| destruct ((change_type payload =? "unstaged")
                     || (change_type payload =? "staged"))%bool];
        cbn [fst snd contextMenu_shown]; lia.
    + unfold click_row. destruct (nth_error (rows_of l v) i) as [r |];
        cbn [fst snd]; [| lia].
      rewrite delete_commands_handle_other by discriminate.
      destruct l; cbn [with_rows unselectAllRows hide_contextMenu contextMenu_shown];
        destruct (contextMenu_shown v); lia.
    + unfold click_row_button. destruct (nth_error (rows_of l v) i) as [r |];
        cbn [fst snd]; [| lia].
      destruct (row_button r) as [[|] |]; cbn [fst snd];
        rewrite ?delete_commands_handle_other by discriminate; lia.
    + unfold truncate_page. cbn [contextMenu_shown]. lia.
    + cbn [hide_contextMenu contextMenu_shown].
      destruct (contextMenu_shown v); lia.
    + cbn [showContextMenu contextMenu_shown].
      destruct (contextMenu_shown v); lia.
    + unfold click_deleteBtn.
      destruct (contextMenu_shown v) eqn:Hshown; cbn [fst snd]; [| rewrite Hshown; lia].
      destruct (contextMenu_branch v) as [[s0 t0] |]; cbn [fst snd];
        [| rewrite Hshown; lia].
      pose proof (delete_commands_delete s0 t0 st). cbn [hide_contextMenu contextMenu_shown].
      lia.
Qed.

End RowsAndTables.

(** One file is listed as unstaged and the diff of a commit is shown;
    the lines of the file arrive under the change type its row asked
    for, and the diff of the commit stays. *)
Lemma diff_of_a_row_lands_in_its_tab_witness :
  let payload := {| files_changed := 1;
                    unstaged_files := [ {| path := "a.txt"; status := 3 |} ];
                    staged_files := [] |} in
  let line := {| old_lineno := None; new_lineno := Some 1; origin := "+";
                 file_type := "txt"; content := "hello" |} in
  let steps := [ UpdateChanges payload;
                 FileLinesArrive {| change_type := "commit";
                                    file_lines := [line] |} ] in
  let v := fst (run_changes monospace8 (fun _ => 400) steps
                  (empty_changes, startup)) in
  let r := addFileChangeRow 400 (Some StageButton)
             {| path := "a.txt"; status := 3 |} "unstaged" "" in
  nth_error (rows_of UnstagedList v) 0 = Some r
  /\ exists v',
       showFileDiff {| change_type := row_changeType r; file_lines := [line; line] |} v
         = Completed v'
       /\ commitFileDiffTable v' = [diff_row line].
Proof.
  intros payload line steps v r.
  assert (H : nth_error (rows_of UnstagedList v) 0 = Some r) by reflexivity.
  split; [exact H |].
  destruct (diff_of_a_row_lands_in_its_tab monospace8 (fun _ => 400)
              steps UnstagedList 0 r [line; line] H)
    as (v' & Hrun & Hother & _).
  exists v'. split; [exact Hrun |].
  cbn [other_table_of] in Hother. rewrite Hother. reflexivity.
Defined.

Section HeaderClicks.

Local Open Scope string_scope.

Lemma forallb_at_index {A : Type} (p : A -> bool) (f : A -> A) (i : nat)
    (l : list A) :
  (forall x, p x = true -> p (f x) = true) ->
  forallb p l = true -> forallb p (at_index f i l) = true.
Proof.
  intros Hf. revert i.
  induction l as [| x l IH]; intros i H; [now destruct i |].
  cbn [forallb] in H. apply andb_true_iff in H as [Hx Hl].
  destruct i as [| i]; cbn [at_index forallb]; apply andb_true_iff; auto.
Qed.

Lemma forallb_map_same {A : Type} (p : A -> bool) (f : A -> A) (l : list A) :
  Forall (fun x => p x = true -> p (f x) = true) l ->
  forallb p l = true -> forallb p (map f l) = true.
Proof.
  induction 1 as [| x l Hx _ IH]; intros H; [reflexivity |].
  cbn [forallb map] in *. apply andb_true_iff in H as [H1 H2].
  apply andb_true_iff. auto.
Qed.

Lemma carets_follow_build_item (t : BranchTree) :
  forall parentTxt, carets_follow_li (build_item parentTxt t) = true.
Proof.
  induction t as [text info children IH] using BranchTree_nested_ind.
  intros parentTxt. destruct children as [| c cs]; [reflexivity |].
  rewrite build_item_parent by discriminate.
  set (children := c :: cs) in *.
  cbn [carets_follow_li Bool.eqb andb].
  apply forallb_forall. intros li Hli.
  apply in_map_iff in Hli as [t [<- Ht]].
  rewrite Forall_forall in IH. now apply IH.
Qed.

Lemma carets_follow_build (children : list BranchTree) (parentTxt : string) :
  forallb carets_follow_li (buildBranchResultHTML children parentTxt) = true.
Proof.
  apply forallb_forall. intros li Hli.
  apply in_map_iff in Hli as [t [<- _]]. apply carets_follow_build_item.
Qed.

Lemma carets_follow_togglerClick (li : Li) :
  carets_follow_li li = true -> carets_follow_li (togglerClick li) = true.
Proof.
  destruct li as [text caret id active items |]; [| trivial].
  cbn [togglerClick carets_follow_li].
  now destruct caret, active.
Qed.

Lemma carets_follow_toggle_at (path : list nat) :
  forall li, carets_follow_li li = true ->
             carets_follow_li (toggle_at path li) = true.
Proof.
  induction path as [| i rest IH]; intros li H.
  - now apply carets_follow_togglerClick.
  - destruct li as [text caret id active items |]; [| exact H].
    cbn [toggle_at carets_follow_li] in *.
    apply andb_true_iff in H as [H1 H2]. apply andb_true_iff.
    split; [exact H1 |]. now apply forallb_at_index.
Qed.

Lemma carets_follow_activate_all_li (ids : list string) (li : Li) :
  carets_follow_li li = true ->
  carets_follow_li (activate_all_li ids li) = true.
Proof.
  induction li as [text caret id active items IH | ] using Li_nested_ind;
    [| trivial].
  cbn [activate_all_li carets_follow_li]. intros H.
  apply andb_true_iff in H as [H1 H2].
  destruct (id_listed ids id); cbn [carets_follow_li]; apply andb_true_iff;
    (split; [first [reflexivity | exact H1] |]);
    now apply forallb_map_same.
Qed.

Lemma carets_follow_activate_first_items (target : string) (items : list Li) :
  Forall (fun li => forall found,
            carets_follow_li li = true ->
            carets_follow_li (snd (activate_first_li target found li)) = true)
         items ->
  forall found,
    forallb carets_follow_li items = true ->
    forallb carets_follow_li (snd (activate_first_items target found items))
    = true.
Proof.
  induction 1 as [| y l Hy _ IH]; intros found H; [reflexivity |].
  cbn [activate_first_items forallb] in *.
  apply andb_true_iff in H as [H1 H2].
  specialize (Hy found H1).
  destruct (activate_first_li target found y) as [f1 y'].
  specialize (IH f1 H2).
  destruct (activate_first_items target f1 l) as [f2 l'].
  cbn [snd forallb] in *. now rewrite Hy, IH.
Qed.

Lemma carets_follow_activate_first_li (target : string) (li : Li) :
  forall found,
    carets_follow_li li = true ->
    carets_follow_li (snd (activate_first_li target found li)) = true.
Proof.
  induction li as [text caret id active items IH | ] using Li_nested_ind;
    intros found H; [| exact H].
  rewrite activate_first_li_parent.
  destruct found; [exact H |].
  cbn [carets_follow_li] in H. apply andb_true_iff in H as [H1 H2].
  destruct (id =? target).
  - cbn [snd carets_follow_li Bool.eqb andb]. exact H2.
  - pose proof (carets_follow_activate_first_items target items IH false H2) as Hi.
    destruct (activate_first_items target false items) as [f' items'].
    cbn [snd carets_follow_li] in *. now rewrite H1, Hi.
Qed.

Lemma carets_follow_activate_first_container (target : string) (found : bool)
    (id : string) (c : Container) :
  carets_follow_container c = true ->
  carets_follow_container (snd (activate_first_container target found id c))
  = true.
Proof.
  unfold activate_first_container, carets_follow_container. intros H.
  destruct found; [exact H |].
  apply andb_true_iff in H as [H1 H2].
  destruct (id =? target); [exact H2 |].
  pose proof (carets_follow_activate_first_items target (ct_items c)) as Hi.
  specialize (Hi (proj2 (Forall_forall _ _)
                    (fun li _ found => carets_follow_activate_first_li target li found))
                 false H2).
  destruct (activate_first_items target false (ct_items c)) as [f' items'].
  cbn [snd ct_caret ct_active ct_items] in *. now rewrite H1, Hi.
Qed.

Lemma carets_follow_activate_all_container (ids : list string) (id : string)
    (c : Container) :
  carets_follow_container c = true ->
  carets_follow_container (activate_all_container ids id c) = true.
Proof.
  unfold activate_all_container, carets_follow_container. intros H.
  apply andb_true_iff in H as [H1 H2].
  cbn [ct_caret ct_active ct_items]. apply andb_true_iff. split.
  - apply Bool.eqb_prop in H1. rewrite H1. apply Bool.eqb_reflx.
  - apply forallb_map_same; [| exact H2].
    apply Forall_forall. intros li _. apply carets_follow_activate_all_li.
Qed.

Lemma carets_follow_rebuild (branch_info_list : BranchInfoList) (doc : TreeView) :
  carets_follow doc = true ->
  carets_follow (rebuild branch_info_list doc) = true.
Proof.
  unfold carets_follow, rebuild, carets_follow_container, with_items.
  cbn [localBranches remoteBranches tags ct_caret ct_active ct_items].
  rewrite !carets_follow_build, !andb_true_r.
  intros H. apply andb_true_iff in H as [H H3].
  apply andb_true_iff in H as [H1 H2].
  apply andb_true_iff in H1 as [H1 _].
  apply andb_true_iff in H2 as [H2 _].
  apply andb_true_iff in H3 as [H3 _].
  now rewrite H1, H2, H3.
Qed.

Lemma carets_follow_activate_all (ids : list string) (doc : TreeView) :
  carets_follow doc = true -> carets_follow (activate_all ids doc) = true.
Proof.
  unfold carets_follow, activate_all. cbn [localBranches remoteBranches tags].
  intros H. apply andb_true_iff in H as [H H3].
  apply andb_true_iff in H as [H1 H2].
  now rewrite !carets_follow_activate_all_container.
Qed.

Lemma carets_follow_activate_first (target : string) (doc : TreeView) :
  carets_follow doc = true -> carets_follow (activate_first target doc) = true.
Proof.
  unfold carets_follow, activate_first.
  intros H. apply andb_true_iff in H as [H H3].
  apply andb_true_iff in H as [H1 H2].
  pose proof (carets_follow_activate_first_container target false
                "localBranches" _ H1) as Hl.
  destruct (activate_first_container target false "localBranches" _) as [f1 l].
  pose proof (carets_follow_activate_first_container target f1
                "remoteBranches" _ H2) as Hr.
  destruct (activate_first_container target f1 "remoteBranches" _) as [f2 r].
  pose proof (carets_follow_activate_first_container target f2 "tags" _ H3) as Ht.
  destruct (activate_first_container target f2 "tags" _) as [f3 t].
  cbn [snd localBranches remoteBranches tags] in *. now rewrite Hl, Hr, Ht.
Qed.

Lemma carets_follow_header_click (h : Header) (doc : TreeView) :
  carets_follow doc = true -> carets_follow (header_click h doc) = true.
Proof.
  unfold carets_follow. intros H. apply andb_true_iff in H as [H H3].
  apply andb_true_iff in H as [H1 H2].
  assert (Hc : forall c, carets_follow_container c = true ->
                         carets_follow_container (toggle_container c) = true).
  { intros c Hc. unfold carets_follow_container, toggle_container in *.
    cbn [ct_caret ct_active ct_items].
    apply andb_true_iff in Hc as [Ha Hb]. rewrite Hb, andb_true_r.
    now destruct (ct_caret c), (ct_active c). }
  assert (Hi : forall i path c,
             carets_follow_container c = true ->
             carets_follow_container
               (with_items c (at_index (toggle_at path) i (ct_items c))) = true).
  { intros i path c Hcc. unfold carets_follow_container, with_items in *.
    cbn [ct_caret ct_active ct_items].
    apply andb_true_iff in Hcc as [Ha Hb]. rewrite Ha. cbn [andb].
    apply forallb_at_index; [apply carets_follow_toggle_at | exact Hb]. }
  destruct h as [[| |] | [| |] i path];
    cbn [header_click in_tree localBranches remoteBranches tags];
    rewrite ?Hc, ?Hi, ?H1, ?H2, ?H3 by assumption; reflexivity.
Qed.

Lemma carets_follow_tree_step (doc doc' : TreeView) (s : TreeStep) :
  carets_follow doc = true -> tree_step doc s = Some doc' ->
  carets_follow doc' = true.
Proof.
  intros H Hs. destruct s as [h | trees]; cbn [tree_step] in Hs.
  - injection Hs as <-. now apply carets_follow_header_click.
  - unfold updateBranchInfo in Hs.
    pose proof (carets_follow_rebuild trees doc H) as Hr.
    destruct (jQuery_query _); cbn [page_after] in Hs;
      try discriminate; injection Hs as <-;
      auto using carets_follow_activate_first, carets_follow_activate_all.
Qed.

Lemma flat_map_at_index {A B : Type} (f : A -> list B) (g : A -> A) (i : nat)
    (l : list A) :
  (forall x, f (g x) = f x) -> flat_map f (at_index g i l) = flat_map f l.
Proof.
  intros Hg. revert i.
  induction l as [| x l IH]; intros i; [now destruct i |].
  destruct i as [| i]; cbn [at_index flat_map]; [now rewrite Hg |].
  now rewrite IH.
Qed.

Lemma rendered_toggle_at (path : list nat) :
  forall li, rendered_ids_li (toggle_at path li) = rendered_ids_li li.
Proof.
  induction path as [| i rest IH]; intros li.
  - now destruct li.
  - destruct li as [text caret id active items |]; [| reflexivity].
    cbn [toggle_at rendered_ids_li]. f_equal. now apply flat_map_at_index.
Qed.

Lemma rendered_header_click (h : Header) (doc : TreeView) :
  rendered_nodes (header_click h doc) = rendered_nodes doc.
Proof.
  unfold rendered_nodes, rendered_ids.
  destruct h as [[| |] | [| |] i path];
    cbn [header_click in_tree localBranches remoteBranches tags
         toggle_container with_items ct_items];
    rewrite ?flat_map_at_index by apply rendered_toggle_at;
    reflexivity.
Qed.

Lemma captured_are_rendered (doc : TreeView) (x : string) :
  In x (activeTreeIds doc) ->
  In x ["localBranches"; "remoteBranches"; "tags"] \/ In x (rendered_nodes doc).
Proof.
  unfold activeTreeIds, container_active_ids, rendered_nodes.
  rewrite !in_app_iff.
  assert (Hc : forall (active : bool) (id : string),
             In x (if active then [id] else []) -> x = id).
  { intros active id H. destruct active; [| exact (False_ind _ H)].
    destruct H as [<- | H]; [reflexivity | exact (False_ind _ H)]. }
  intros [[H | H] | [[H | H] | [H | H]]];
    try (apply Hc in H; subst x; left; cbn; tauto);
    apply expanded_rendered in H; tauto.
Qed.

Lemma identifiers_captured (doc : TreeView) :
  identifiers (rendered_nodes doc) -> identifiers (activeTreeIds doc).
Proof.
  unfold identifiers. rewrite !Forall_forall. intros H x Hx.
  apply captured_are_rendered in Hx as [Hx | Hx]; [| now apply H].
  cbn in Hx. destruct Hx as [<- | [<- | [<- | []]]]; reflexivity.
Qed.

Lemma all_chars_append (p : ascii -> bool) (s t : string) :
  all_chars p (s ++ t) = all_chars p s && all_chars p t.
Proof.
  induction s as [| c s IH]; [reflexivity |].
  cbn [append all_chars]. now rewrite IH, andb_assoc.
Qed.

Lemma identifier_child (parentTxt text : string) :
  is_identifier parentTxt = true ->
  all_chars is_ident_char text = true ->
  is_identifier (parentTxt ++ "-" ++ text) = true.
Proof.
  intros Hp Ht. apply identifier_inv in Hp as [Hne Hall].
  unfold is_identifier. rewrite !all_chars_append, Hall, Ht.
  destruct parentTxt as [| c rest]; [discriminate Hne | reflexivity].
Qed.

Lemma plain_build_item (t : BranchTree) :
  forall parentTxt,
    is_identifier parentTxt = true ->
    plain_tree t = true ->
    identifiers (rendered_ids_li (build_item parentTxt t)).
Proof.
  induction t as [text info children IH] using BranchTree_nested_ind.
  intros parentTxt Hp Ht. destruct children as [| c cs]; [constructor |].
  rewrite build_item_parent by discriminate.
  set (children := c :: cs) in *.
  cbn [plain_tree] in Ht. apply andb_true_iff in Ht as [Htext Hchildren].
  pose proof (identifier_child parentTxt text Hp Htext) as Hid.
  cbn [rendered_ids_li]. constructor; [exact Hid |].
  apply Forall_forall. intros x Hx.
  apply in_flat_map in Hx as [li [Hli Hx]].
  apply in_map_iff in Hli as [t [<- Ht]].
  rewrite Forall_forall in IH.
  rewrite forallb_forall in Hchildren.
  specialize (IH t Ht _ Hid (Hchildren t Ht)).
  unfold identifiers in IH. rewrite Forall_forall in IH. now apply IH.
Qed.

Lemma plain_build (children : list BranchTree) (container : string) :
  is_identifier container = true ->
  forallb plain_tree children = true ->
  identifiers (rendered_ids (buildBranchResultHTML children container)).
Proof.
  intros Hc Hchildren. apply Forall_forall. intros x Hx.
  apply in_flat_map in Hx as [li [Hli Hx]].
  apply in_map_iff in Hli as [t [<- Ht]].
  rewrite forallb_forall in Hchildren.
  pose proof (plain_build_item t container Hc (Hchildren t Ht)) as H.
  unfold identifiers in H. rewrite Forall_forall in H. now apply H.
Qed.

Lemma plain_rebuild (branch_info_list : BranchInfoList) (doc : TreeView) :
  plain_branches branch_info_list = true ->
  identifiers (rendered_nodes (rebuild branch_info_list doc)).
Proof.
  unfold plain_branches, rendered_nodes, rebuild. intros H.
  apply andb_true_iff in H as [H H3]. apply andb_true_iff in H as [H1 H2].
  cbn [localBranches remoteBranches tags ct_items with_items].
  unfold identifiers. rewrite !Forall_app.
  repeat split; now apply plain_build.
Qed.

Lemma tree_step_keeps (doc : TreeView) (s : TreeStep) :
  carets_follow doc = true ->
  identifiers (rendered_nodes doc) ->
  plain_step s = true ->
  exists doc',
    tree_step doc s = Some doc'
    /\ carets_follow doc' = true
    /\ identifiers (rendered_nodes doc').
Proof.
  intros Hcarets Hids Hplain.
  assert (Hstep : exists doc', tree_step doc s = Some doc'
                               /\ identifiers (rendered_nodes doc')).
  { destruct s as [h | trees]; cbn [tree_step plain_step] in *.
    - eexists. split; [reflexivity |]. now rewrite rendered_header_click.
    - destruct (update_leaves_a_page trees doc (identifiers_captured doc Hids))
        as (after & Hafter & Hshape).
      exists after. split; [exact Hafter |].
      assert (Hsame : rendered_nodes after = rendered_nodes (rebuild trees doc)).
      { destruct Hshape as [-> | [[target ->] | [ids ->]]];
          [reflexivity
          | apply (activate_first_nodes target (rebuild trees doc))
          | apply (activate_all_nodes ids (rebuild trees doc))]. }
      rewrite Hsame. now apply plain_rebuild. }
  destruct Hstep as (doc' & Hstep & Hids').
  exists doc'. split; [exact Hstep | split; [| exact Hids']].
  now apply (carets_follow_tree_step doc doc' s).
Qed.

(** X18.  On a page where the caret of every header is turned exactly
    when the list below it is expanded and the ids of the nested lists
    are words of letters, digits, underscores and hyphens, this stays so
    through any sequence of clicks on headers, at any depth, and of
    arriving branches whose node texts are such words: every handler
    returns, or throws on the bare ["#"] after it has rebuilt the lists,
    and the carets still follow the expansion. *)
Theorem carets_follow_expansion :
  forall (steps : list TreeStep) (doc : TreeView),
    carets_follow doc = true ->
    identifiers (rendered_nodes doc) ->
    forallb plain_step steps = true ->
    exists doc',
      run_tree steps doc = Some doc'
      /\ carets_follow doc' = true
      /\ identifiers (rendered_nodes doc').
Proof.
  induction steps as [| s steps IH]; intros doc Hcarets Hids Hplain.
  - exists doc. now repeat split.
  - cbn [forallb] in Hplain. apply andb_true_iff in Hplain as [Hs Hsteps].
    destruct (tree_step_keeps doc s Hcarets Hids Hs) as (doc1 & Hstep & Hc1 & Hi1).
    destruct (IH doc1 Hc1 Hi1 Hsteps) as (doc' & Hrun & Hc' & Hi').
    exists doc'. cbn [run_tree]. rewrite Hstep. now repeat split.
Qed.

(** On the page with [feature] and [release] open, [release/v1] is
    opened, branches arrive, and [feature] is closed. *)
Lemma carets_follow_expansion_witness :
  let steps := [ HeaderClicked (ItemHeader LocalTree 2 [0%nat]);
                 BranchInfoArrives usual_branches;
                 HeaderClicked (ItemHeader LocalTree 1 []) ] in
  carets_follow usual_page = true
  /\ identifiers (rendered_nodes usual_page)
  /\ forallb plain_step steps = true
  /\ exists doc',
       run_tree steps usual_page = Some doc'
       /\ expanded_nodes doc'
          = ["localBranches-release"; "localBranches-release-v1"]
       /\ carets_follow doc' = true.
Proof.
  intros steps.
  assert (H1 : carets_follow usual_page = true) by reflexivity.
  assert (H2 : identifiers (rendered_nodes usual_page))
    by (vm_compute; repeat constructor).
  assert (H3 : forallb plain_step steps = true) by reflexivity.
  split; [exact H1 | split; [exact H2 | split; [exact H3 |]]].
  destruct (carets_follow_expansion steps usual_page H1 H2 H3)
    as (doc' & Hrun & Hcarets & _).
  exists doc'. split; [exact Hrun | split; [| exact Hcarets]].
  vm_compute in Hrun. injection Hrun as <-. reflexivity.
Defined.

End HeaderClicks.

Section EarlierRevision.

Local Open Scope string_scope.



End EarlierRevision.

Section Refresh.

Local Open Scope string_scope.

Variable measure : string -> Z.
Variable layout : string -> Z.




End Refresh.


